(** * The chunked CSV upload pipeline of [scripts/main.py]

    A shallow embedding of [CsvUploader]: the chunk writer
    ([process_and_upload_chunks], [_write_chunk]), the token authenticator
    ([_generate_jwt]), the upload client with its [tenacity] retry decorator
    ([upload_call]), and the delivery tracker ([upload_csv_file],
    [_prepare_output_directory]).

    The program talks to a file system, to the process environment and to two
    HTTP endpoints.  The files that the program opens itself, the source and
    the chunk files, are an explicit finite map, the process environment a
    finite map of variables, and the answers of the remote side are oracles
    indexed by the number of the call, so that every theorem holds for every
    behaviour of the server.

    What the program hands to [logging] is kept as a record in the history.
    Where the handlers of the root logger put the records (the console and,
    once [setup_logging] ran, the rotating file [./script.log]) is outside
    the map of files: no statement about [files] speaks of a log file. *)

From Stdlib Require Import ZArith Lia Ascii.
From stdpp Require Import gmap strings list pretty.

Open Scope string_scope.
Open Scope list_scope.
Open Scope Z_scope.

(** ** Data *)

(** A row as [csv.reader] yields it: the list of its fields.  A field is kept
    as the bytes of its UTF-8 encoding, so that
    [len(",".join(row).encode("utf-8"))] is the length of the joined string
    (UTF-8 encoding commutes with concatenation). *)
Abbreviation Row := (list string) (only parsing).

(** A path is the list of its components; [os.path.join] appends
    components. *)
Abbreviation path := (list string) (only parsing).

(** [CSV_PATH] as [os.path.dirname], [os.path.basename] and
    [os.path.splitext] take it apart. *)
Record CsvPath : Type := {
  csv_directory : path;
  csv_stem : string;
  csv_ext : string
}.

Definition csv_path_key (p : CsvPath) : path :=
  csv_directory p ++ [csv_stem p +:+ csv_ext p].

(** What [requests.post] gives back: a raised [requests.RequestException]
    or a response with a status code and a body. *)
Inductive HttpResult : Type :=
| TransportError
| Response (status_code : Z) (text : string).

(** The exceptions of the program; each of them derives from [Exception]. *)
Inductive Exn : Type :=
| RuntimeError (msg : string)
| RequestException
| UploadFailed (status_code : Z)
| RetryError
| FileNotFoundError (p : path)
| OSError (p : path)
| TypeError
| StopIteration.

Inductive LogRecord : Type :=
| LogReadingEnv
| LogJwtGenerated
| LogJwtFailed
| LogMoved (chunk_filename : string) (dst : path)
| LogFailedAfterAttempts (chunk_file_path : path)
| LogUploadError (chunk_filename : string)
| LogUploaded (chunk_file_path : path)
| LogUploadWarning (chunk_file_path : path) (text : string)
| LogWritten (chunk_filename : string) (lines : nat) (chunk_file_path : path).

(** Observable events, in the order in which they happen. *)
Inductive Event : Type :=
| EvAuth (url : string) (username password : option string) (r : HttpResult)
| EvUpload (url : string) (authorization : string) (chunk_filename : string)
    (body : list Row) (r : HttpResult)
| EvWrite (p : path) (content : list Row)
| EvMove (src dst : path)
| EvLog (l : LogRecord).

(** The surroundings of one run. *)
Record Env : Type := {
  environ : gmap string string;
  now : string;
  auth_oracle : nat → HttpResult;
  upload_oracle : nat → HttpResult;
  move_fails : nat → bool
}.

(** The mutable part: the one attribute of the uploader that is reassigned
    after construction, the file system, and the history.  [files] holds
    the files that the program reads with [csv.reader], writes with
    [csv.writer] and moves with [shutil.move], each as the rows it holds;
    [dirs] holds the directories. *)
Record State : Type := {
  generated_jwt : string;
  files : gmap path (list Row);
  dirs : gset path;
  n_auth : nat;
  n_upload : nat;
  n_move : nat;
  trace : list Event
}.

Definition set_generated_jwt (t : string) (s : State) : State :=
  {| generated_jwt := t; files := files s; dirs := dirs s;
     n_auth := n_auth s; n_upload := n_upload s; n_move := n_move s;
     trace := trace s |}.

Definition set_files (f : gmap path (list Row)) (s : State) : State :=
  {| generated_jwt := generated_jwt s; files := f; dirs := dirs s;
     n_auth := n_auth s; n_upload := n_upload s; n_move := n_move s;
     trace := trace s |}.

Definition set_dirs (d : gset path) (s : State) : State :=
  {| generated_jwt := generated_jwt s; files := files s; dirs := d;
     n_auth := n_auth s; n_upload := n_upload s; n_move := n_move s;
     trace := trace s |}.

Definition emit (e : Event) (s : State) : State :=
  {| generated_jwt := generated_jwt s; files := files s; dirs := dirs s;
     n_auth := n_auth s; n_upload := n_upload s; n_move := n_move s;
     trace := trace s ++ [e] |}.

Definition tick_auth (s : State) : State :=
  {| generated_jwt := generated_jwt s; files := files s; dirs := dirs s;
     n_auth := S (n_auth s); n_upload := n_upload s; n_move := n_move s;
     trace := trace s |}.

Definition tick_upload (s : State) : State :=
  {| generated_jwt := generated_jwt s; files := files s; dirs := dirs s;
     n_auth := n_auth s; n_upload := S (n_upload s); n_move := n_move s;
     trace := trace s |}.

Definition tick_move (s : State) : State :=
  {| generated_jwt := generated_jwt s; files := files s; dirs := dirs s;
     n_auth := n_auth s; n_upload := n_upload s; n_move := S (n_move s);
     trace := trace s |}.

(** ** A state and exception monad *)

Inductive Res (A : Type) : Type :=
| Ok (a : A)
| Raise (e : Exn).
Arguments Ok {A} a.
Arguments Raise {A} e.

Definition M (A : Type) : Type := State → Res A * State.

Definition ret {A} (a : A) : M A := λ s, (Ok a, s).
Definition raise {A} (e : Exn) : M A := λ s, (Raise e, s).
Definition bind {A B} (c : M A) (k : A → M B) : M B :=
  λ s, match c s with
       | (Ok a, s') => k a s'
       | (Raise e, s') => (Raise e, s')
       end.
Definition catch {A} (c : M A) (h : Exn → M A) : M A :=
  λ s, match c s with
       | (Ok a, s') => (Ok a, s')
       | (Raise e, s') => h e s'
       end.
Definition modify (f : State → State) : M unit := λ s, (Ok tt, f s).
Definition get {A} (f : State → A) : M A := λ s, (Ok (f s), s).

(** [logging.info], [logging.warning] and [logging.error]: the record goes
    to the handlers of the root logger, and the history keeps it. *)
Definition logging (l : LogRecord) : M unit := modify (emit (EvLog l)).

(** The monad is registered with stdpp's classes, which gives the notations
    [x ← c; k] and [c;; k]. *)
#[export] Instance M_ret : MRet M := @ret.
#[export] Instance M_bind : MBind M := λ A B k c, bind c k.

(** ** The uploader *)

(** The attributes that [__init__] sets and nothing reassigns later. *)
Record CsvUploader : Type := {
  CSV_PATH : option CsvPath;
  HEADER : Z;
  MAX_CHUNK_SIZE : Z;
  BASE_URL : string;
  USERNAME : option string;
  PASSWORD : option string;
  CONNECTION_UUID : string;
  PROFILE_UUID : string;
  QAS_JWT_TOKEN_URI : string;
  PROCESSED_DIR : string;
  envQualysUsernameProperty : option string;
  envQualysPasswordProperty : option string
}.

(** The parsed arguments ([Bunch] or [argparse.Namespace]); [None] stands
    for an attribute that is absent or null. *)
Record Args : Type := {
  csvPath : option CsvPath;
  header : option Z;
  baseUrl : string;
  username : option string;
  password : option string;
  connectionUuid : string;
  profileUuid : string;
  envQualysUsernamePropertyArg : option string;
  envQualysPasswordPropertyArg : option string
}.

Definition with_credentials (u p : option string) (self : CsvUploader) :
    CsvUploader :=
  {| CSV_PATH := CSV_PATH self; HEADER := HEADER self;
     MAX_CHUNK_SIZE := MAX_CHUNK_SIZE self; BASE_URL := BASE_URL self;
     USERNAME := u; PASSWORD := p;
     CONNECTION_UUID := CONNECTION_UUID self;
     PROFILE_UUID := PROFILE_UUID self;
     QAS_JWT_TOKEN_URI := QAS_JWT_TOKEN_URI self;
     PROCESSED_DIR := PROCESSED_DIR self;
     envQualysUsernameProperty := envQualysUsernameProperty self;
     envQualysPasswordProperty := envQualysPasswordProperty self |}.

Section Pipeline.

Variable E : Env.

(** [_fill_username_password]: returns the uploader with the credentials
    it settles on. *)
Definition _fill_username_password (self : CsvUploader) : M CsvUploader :=
  match envQualysUsernameProperty self, envQualysPasswordProperty self with
  | Some uvar, Some pvar =>
      logging LogReadingEnv;;
      let u := environ E !! uvar in
      let p := environ E !! pvar in
      let self' := with_credentials u p self in
      match u, p with
      | Some _, Some _ => ret self'
      | _, _ =>
          raise (RuntimeError
            "Env properties were provided but not set for username password")
      end
  | _, _ => ret self
  end.

(** [response.raise_for_status()] raises for 4xx and 5xx. *)
Definition raise_for_status (status_code : Z) : bool :=
  (400 <=? status_code) && (status_code <? 600).

(** [_generate_jwt]: one POST to the auth endpoint. *)
Definition _generate_jwt (self : CsvUploader) : M string :=
  let url := BASE_URL self +:+ QAS_JWT_TOKEN_URI self in
  k ← get n_auth;
  let r := auth_oracle E k in
  modify tick_auth;;
  modify (emit (EvAuth url (USERNAME self) (PASSWORD self) r));;
  match r with
  | TransportError => logging LogJwtFailed;; raise RequestException
  | Response code text =>
      if raise_for_status code
      then logging LogJwtFailed;; raise RequestException
      else logging LogJwtGenerated;; ret text
  end.

(** [CsvUploader.__init__]. *)
Definition __init__ (args : Args) : M CsvUploader :=
  let self :=
    {| CSV_PATH := csvPath args;
       HEADER := default 1 (header args);
       MAX_CHUNK_SIZE := 9 * 1024 * 1024;
       BASE_URL := baseUrl args;
       USERNAME := username args;
       PASSWORD := password args;
       CONNECTION_UUID := connectionUuid args;
       PROFILE_UUID := profileUuid args;
       QAS_JWT_TOKEN_URI := "/auth";
       PROCESSED_DIR := "uploaded";
       envQualysUsernameProperty := envQualysUsernamePropertyArg args;
       envQualysPasswordProperty := envQualysPasswordPropertyArg args |} in
  self ← _fill_username_password self;
  t ← _generate_jwt self;
  modify (set_generated_jwt t);;
  ret self.

(** *** The delivery tracker and the upload client *)

Definition dirname (p : path) : path := removelast p.

(** The directories [os.makedirs(p, exist_ok=True)] leaves in place:
    [p] and each of its ancestors. *)
Fixpoint ancestors_or_self (p : path) : list path :=
  match p with
  | [] => [[]]
  | c :: r => [] :: (cons c <$> ancestors_or_self r)
  end.

Definition makedirs (p : path) (s : State) : State :=
  set_dirs (list_to_set (ancestors_or_self p) ∪ dirs s) s.

(** [shutil.move(src, dst)] for a file [src] and a destination that is not
    a directory: it raises when the environment refuses the move, when
    [src] is missing or when the directory of [dst] is missing; otherwise
    the content is found under [dst] and no longer under [src]. *)
Definition shutil_move (src dst : path) : M unit :=
  k ← get n_move;
  modify tick_move;;
  if move_fails E k then raise (OSError dst)
  else
    fs ← get files;
    d ← get dirs;
    match fs !! src with
    | None => raise (FileNotFoundError src)
    | Some content =>
        if decide (dirname dst ∈ d)
        then modify (set_files (<[dst := content]> (delete src fs)));;
             modify (emit (EvMove src dst))
        else raise (FileNotFoundError dst)
    end.

Definition upload_url (self : CsvUploader) : string :=
  BASE_URL self +:+ "/connector-config/connector/integration/"
  +:+ CONNECTION_UUID self +:+ "/" +:+ PROFILE_UUID self +:+ "/file-upload".

(** The body of [upload_call], the function that the [@retry] decorator
    wraps: one upload attempt. *)
Definition upload_call_wrapped (self : CsvUploader)
    (chunk_file_path : path) (chunk_filename : string) : M HttpResult :=
  fs ← get files;
  match fs !! chunk_file_path with
  | None => raise (FileNotFoundError chunk_file_path)
  | Some f =>
      jwt ← get generated_jwt;
      let headers := "Bearer " +:+ jwt in
      k ← get n_upload;
      let response := upload_oracle E k in
      modify tick_upload;;
      modify (emit (EvUpload (upload_url self) headers chunk_filename f
                      response));;
      match response with
      | TransportError =>
          logging (LogUploadError chunk_filename);; raise RequestException
      | Response status_code text =>
          if status_code =? 200
          then logging (LogUploaded chunk_file_path);; ret response
          else if status_code =? 401
          then t ← _generate_jwt self;
               modify (set_generated_jwt t);;
               raise (UploadFailed status_code)
          else logging (LogUploadWarning chunk_file_path text);;
               raise (UploadFailed status_code)
      end
  end.

(** [retry_if_exception_type(Exception)]: every exception of the program
    derives from [Exception]. *)
Definition retry_if_exception_type_Exception (e : Exn) : bool := true.

(** [stop_after_attempt(3)]. *)
Definition stop_after_attempt : nat := 3.

(** The loop of [tenacity]'s [@retry] with [attempts] calls still allowed:
    a call that returns ends the loop; a call that raises a retryable
    exception is repeated while the budget lasts, and the exhausted budget
    raises [RetryError] ([reraise] is left at its default). *)
Fixpoint retrying {A} (attempts : nat) (f : M A) : M A :=
  match attempts with
  | O => raise RetryError
  | S n =>
      catch f (λ e, if retry_if_exception_type_Exception e
                    then retrying n f
                    else raise e)
  end.

(** [upload_call] as the decorator leaves it. *)
Definition upload_call (self : CsvUploader)
    (chunk_file_path : path) (chunk_filename : string) : M HttpResult :=
  retrying stop_after_attempt
    (upload_call_wrapped self chunk_file_path chunk_filename).

(** [upload_csv_file]: the [try] covers the upload, the move and the log
    line; the [except] clause takes [RetryError] only. *)
Definition upload_csv_file (self : CsvUploader) (chunk_filename : string)
    (output_dir : path) : M unit :=
  let processed_chunk_path :=
    output_dir ++ [PROCESSED_DIR self; chunk_filename] in
  let chunk_file_path := output_dir ++ [chunk_filename] in
  catch
    (upload_call self chunk_file_path chunk_filename;;
     shutil_move chunk_file_path processed_chunk_path;;
     logging (LogMoved chunk_filename processed_chunk_path))
    (λ e, match e with
          | RetryError => logging (LogFailedAfterAttempts chunk_file_path)
          | _ => raise e
          end).

(** *** The chunk writer *)

(** [_write_chunk]: the file holds what [csv.writer] was handed, the header
    row and then the rows of the chunk; opening for writing replaces an
    older file and needs the directory to exist. *)
Definition _write_chunk (self : CsvUploader) (chunk : list Row)
    (chunk_index : Z) (headers : Row) (filename : string)
    (output_dir : path) : M string :=
  let chunk_filename := filename +:+ "_" +:+ pretty chunk_index +:+ ".csv" in
  let chunk_file_path := output_dir ++ [chunk_filename] in
  d ← get dirs;
  if decide (output_dir ∈ d)
  then
    fs ← get files;
    modify (set_files (<[chunk_file_path := headers :: chunk]> fs));;
    modify (emit (EvWrite chunk_file_path (headers :: chunk)));;
    logging (LogWritten chunk_filename (length chunk) chunk_file_path);;
    ret chunk_filename
  else raise (FileNotFoundError chunk_file_path).

(** [_prepare_output_directory]. *)
Definition _prepare_output_directory (self : CsvUploader) :
    M (path * string) :=
  match CSV_PATH self with
  | None => raise TypeError
  | Some csv =>
      let timestamp := now E in
      let filename := csv_stem csv in
      let directory := csv_directory csv in
      let output_dir := directory ++ [filename +:+ "_" +:+ timestamp] in
      modify (makedirs (output_dir ++ [PROCESSED_DIR self]));;
      ret (output_dir, filename)
  end.

(** [len(",".join(row).encode("utf-8")) + 1]. *)
Definition row_size (row : Row) : Z :=
  Z.of_nat (String.length (String.concat "," row)) + 1.

(** The three local variables of the loop. *)
Record Buffer : Type := {
  chunk : list Row;
  current_chunk_size : Z;
  chunk_index : Z
}.

(** One turn of [for row in csv_file_reader]. *)
Definition for_row (self : CsvUploader) (headers : Row) (filename : string)
    (output_dir : path) (b : Buffer) (row : Row) : M Buffer :=
  let size := row_size row in
  let appended := chunk b ++ [row] in
  b' ← (if current_chunk_size b + size >? MAX_CHUNK_SIZE self
        then
          let index := chunk_index b + 1 in
          chunk_filename ←
            _write_chunk self appended index headers filename output_dir;
          upload_csv_file self chunk_filename output_dir;;
          ret {| chunk := []; current_chunk_size := 0;
                 chunk_index := index |}
        else
          ret {| chunk := appended;
                 current_chunk_size := current_chunk_size b;
                 chunk_index := chunk_index b |});
  ret {| chunk := chunk b' ++ [row];
         current_chunk_size := current_chunk_size b' + size;
         chunk_index := chunk_index b' |}.

Fixpoint for_rows (self : CsvUploader) (headers : Row) (filename : string)
    (output_dir : path) (rows : list Row) (b : Buffer) : M Buffer :=
  match rows with
  | [] => ret b
  | row :: rest =>
      b' ← for_row self headers filename output_dir b row;
      for_rows self headers filename output_dir rest b'
  end.

(** [next(csv_file_reader)], [n] times. *)
Fixpoint skip_rows (n : nat) (reader : list Row) : M (list Row) :=
  match n with
  | O => ret reader
  | S k =>
      match reader with
      | [] => raise StopIteration
      | _ :: reader' => skip_rows k reader'
      end
  end.

(** [process_and_upload_chunks].  The chunk files lie in another directory
    than the source, so the rows of the source are read before the loop. *)
Definition process_and_upload_chunks (self : CsvUploader) : M unit :=
  '(output_dir, filename) ← _prepare_output_directory self;
  fs ← get files;
  match CSV_PATH self ≫= (λ csv, fs !! csv_path_key csv) with
  | None =>
      raise (FileNotFoundError (from_option csv_path_key [] (CSV_PATH self)))
  | Some csv_file_reader =>
      csv_file_reader ←
        skip_rows (Z.to_nat (HEADER self - 1)) csv_file_reader;
      match csv_file_reader with
      | [] => raise StopIteration
      | headers :: rows =>
          b ← for_rows self headers filename output_dir rows
                {| chunk := []; current_chunk_size := 0; chunk_index := 0 |};
          match chunk b with
          | [] => ret tt
          | _ :: _ =>
              let index := chunk_index b + 1 in
              chunk_filename ←
                _write_chunk self (chunk b) index headers filename
                  output_dir;
              upload_csv_file self chunk_filename output_dir
          end
      end
  end.

(** The last two lines of [start]: the uploader is built from the
    arguments that [parse_arguments] returned, and runs.  The two lines
    before them install the log handlers and parse the arguments; they
    make no directory, send no request and touch neither the source nor a
    chunk file. *)
Definition start (args : Args) : M unit :=
  uploader ← __init__ args;
  process_and_upload_chunks uploader.

End Pipeline.

(** * Vocabulary of the properties *)

(** ** Relations between two states *)

(** A relation between the state before and the state after holds for
    every run of a computation. *)
Definition preserves (R : relation State) {A} (c : M A) : Prop :=
  ∀ s, R s (c s).2.

(** The chunk files written along a history. *)
Definition writes (tr : list Event) : list (path * list Row) :=
  omap (λ e, match e with EvWrite p c => Some (p, c) | _ => None end) tr.

(** What an upload with its retries and re-authentications leaves alone. *)
Definition upload_frame (s s' : State) : Prop :=
  files s' = files s ∧ dirs s' = dirs s ∧ n_move s' = n_move s
  ∧ writes (trace s') = writes (trace s).

(** The token in force after an event: a response of the auth endpoint that
    [raise_for_status] accepts issues a new token. *)
Definition step_jwt (jwt : string) (e : Event) : string :=
  match e with
  | EvAuth _ _ _ (Response code t) => if raise_for_status code then jwt else t
  | _ => jwt
  end.

(** The token in force after a stretch of history. *)
Definition current_jwt (jwt : string) (tr : list Event) : string :=
  fold_left step_jwt tr jwt.

(** Every upload request of the history carries the token in force when it
    is sent. *)
Fixpoint bearer_consistent (jwt : string) (tr : list Event) : Prop :=
  match tr with
  | [] => True
  | e :: tr' =>
      match e with
      | EvUpload _ authorization _ _ _ => authorization = "Bearer " +:+ jwt
      | _ => True
      end
      ∧ bearer_consistent (step_jwt jwt e) tr'
  end.

(** The history grows, the uploads that were added carry the token in
    force, and the stored token is the token in force at the end. *)
Definition token_tracked (s s' : State) : Prop :=
  ∃ tr, trace s' = trace s ++ tr
        ∧ bearer_consistent (generated_jwt s) tr
        ∧ generated_jwt s' = current_jwt (generated_jwt s) tr.

(** In a stretch of history, the auth endpoint is asked only right after an
    upload that was answered with 401. *)
Definition auth_after_401 (tr : list Event) : Prop :=
  ∀ i url u p r,
    tr !! i = Some (EvAuth url u p r) →
    ∃ j url' a name body text,
      i = S j ∧ tr !! j = Some (EvUpload url' a name body (Response 401 text)).

(** The history grows by a stretch in which the auth endpoint is asked
    only after a 401. *)
Definition reauth_only_after_401 (s s' : State) : Prop :=
  ∃ tr, trace s' = trace s ++ tr ∧ auth_after_401 tr.

(** The moves that a stretch of history completed. *)
Definition moved (tr : list Event) : list (path * path) :=
  omap (λ e, match e with EvMove src dst => Some (src, dst) | _ => None end)
    tr.

(** The history grows, and every call of [shutil.move] that was made
    completed. *)
Definition moves_completed (s s' : State) : Prop :=
  ∃ tr, trace s' = trace s ++ tr
        ∧ n_move s' = (n_move s + length (moved tr))%nat.

(** A relation between the state before and the state after holds for
    every run of a computation that returns. *)
Definition returns_within (R : relation State) {A} (c : M A) : Prop :=
  ∀ s a s', c s = (Ok a, s') → R s s'.

(** ** States along a run *)

(** [f"{filename}_{chunk_index}.csv"]. *)
Definition chunk_name (filename : string) (chunk_index : Z) : string :=
  filename +:+ "_" +:+ pretty chunk_index +:+ ".csv".

(** The state that [_write_chunk] leaves. *)
Definition written (rows : list Row) (index : Z) (headers : Row)
    (filename : string) (output_dir : path) (s : State) : State :=
  emit (EvLog (LogWritten (chunk_name filename index) (length rows)
                 (output_dir ++ [chunk_name filename index])))
    (emit (EvWrite (output_dir ++ [chunk_name filename index])
             (headers :: rows))
       (set_files
          (<[output_dir ++ [chunk_name filename index] := headers :: rows]>
             (files s))
          s)).

(** The state once the request of an attempt is out. *)
Definition sent (E : Env) (self : CsvUploader) (name : string)
    (f : list Row) (s : State) : State :=
  emit (EvUpload (upload_url self) ("Bearer " +:+ generated_jwt s) name f
          (upload_oracle E (n_upload s)))
    (tick_upload s).

(** The state once the auth endpoint was asked. *)
Definition asked (E : Env) (self : CsvUploader) (s : State) : State :=
  emit (EvAuth (BASE_URL self +:+ QAS_JWT_TOKEN_URI self) (USERNAME self)
          (PASSWORD self) (auth_oracle E (n_auth s)))
    (tick_auth s).

(** The state in which an attempt starts after [k] attempts of [f], each
    of which started where the one before it ended. *)
Fixpoint after_attempts {A} (k : nat) (f : M A) (s : State) : State :=
  match k with
  | O => s
  | S k' => after_attempts k' f (f s).2
  end.

(** The directory of a run. *)
Definition run_directory (E : Env) (csv : CsvPath) : path :=
  csv_directory csv ++ [csv_stem csv +:+ "_" +:+ now E].

(** ** The chunks as a function of the rows *)

(** The buffer before the first row. *)
Definition empty_buffer : Buffer :=
  {| chunk := []; current_chunk_size := 0; chunk_index := 0 |}.

(** The buffer after one turn of the loop. *)
Definition next_buffer (max : Z) (b : Buffer) (row : Row) : Buffer :=
  if current_chunk_size b + row_size row >? max
  then {| chunk := [row]; current_chunk_size := row_size row;
          chunk_index := chunk_index b + 1 |}
  else {| chunk := (chunk b ++ [row]) ++ [row];
          current_chunk_size := current_chunk_size b + row_size row;
          chunk_index := chunk_index b |}.

(** The chunk that one turn of the loop seals, with its index. *)
Definition sealed_by (max : Z) (b : Buffer) (row : Row) :
    list (Z * list Row) :=
  if current_chunk_size b + row_size row >? max
  then [(chunk_index b + 1, chunk b ++ [row])]
  else [].

(** The chunks that the loop seals on these rows, from this buffer. *)
Fixpoint sealed_in_loop (max : Z) (rows : list Row) (b : Buffer) :
    list (Z * list Row) :=
  match rows with
  | [] => []
  | row :: rest =>
      sealed_by max b row ++ sealed_in_loop max rest (next_buffer max b row)
  end.

(** The buffer when the rows are exhausted. *)
Fixpoint buffer_after (max : Z) (rows : list Row) (b : Buffer) : Buffer :=
  match rows with
  | [] => b
  | row :: rest => buffer_after max rest (next_buffer max b row)
  end.

(** The chunk that is sealed after the loop, if the buffer holds rows. *)
Definition sealed_at_end (b : Buffer) : list (Z * list Row) :=
  match chunk b with
  | [] => []
  | _ :: _ => [(chunk_index b + 1, chunk b)]
  end.

(** All chunks of a source with these data rows, in the order of sealing. *)
Definition chunks_of (max : Z) (rows : list Row) : list (Z * list Row) :=
  sealed_in_loop max rows empty_buffer
  ++ sealed_at_end (buffer_after max rows empty_buffer).

(** The write that seals a chunk. *)
Definition write_of (headers : Row) (filename : string) (out : path)
    (c : Z * list Row) : path * list Row :=
  (out ++ [chunk_name filename c.1], headers :: c.2).

(** The serialized size of the rows of a chunk, the header row left out. *)
Definition payload (rows : list Row) : Z :=
  foldr (λ row acc, row_size row + acc) 0 rows.

(** What the loop appends to the buffer for one row. *)
Definition twice (row : Row) : list Row := [row; row].

(** The data rows that a history wrote into chunk files, file after file,
    the header row of each file left out. *)
Definition data_rows_written (tr : list Event) : list Row :=
  concat ((λ w : path * list Row, tail w.2) <$> writes tr).

(** ** Sources, servers and environments of the examples *)

(** A source [data/assets.csv] with a header row and one data row. *)
Definition demo_state : State :=
  {| generated_jwt := "jwt0";
     files := {[ ["data"; "assets.csv"] := [["id"; "name"]; ["1"; "ab"]] ]};
     dirs := {[ ["data"] ]};
     n_auth := 0; n_upload := 0; n_move := 0; trace := [] |}.

(** The uploader for that source. *)
Definition demo_uploader : CsvUploader :=
  {| CSV_PATH := Some {| csv_directory := ["data"]; csv_stem := "assets";
                         csv_ext := ".csv" |};
     HEADER := 1;
     MAX_CHUNK_SIZE := 9 * 1024 * 1024;
     BASE_URL := "https://gateway";
     USERNAME := Some "user";
     PASSWORD := Some "secret";
     CONNECTION_UUID := "c-1";
     PROFILE_UUID := "p-1";
     QAS_JWT_TOKEN_URI := "/auth";
     PROCESSED_DIR := "uploaded";
     envQualysUsernameProperty := None;
     envQualysPasswordProperty := None |}.

(** The arguments from which [__init__] builds [demo_uploader]. *)
Definition demo_args : Args :=
  {| csvPath := Some {| csv_directory := ["data"]; csv_stem := "assets";
                        csv_ext := ".csv" |};
     header := None;
     baseUrl := "https://gateway";
     username := Some "user";
     password := Some "secret";
     connectionUuid := "c-1";
     profileUuid := "p-1";
     envQualysUsernamePropertyArg := None;
     envQualysPasswordPropertyArg := None |}.

(** The same arguments with the credentials looked up in the environment. *)
Definition demo_env_args : Args :=
  {| csvPath := csvPath demo_args;
     header := None;
     baseUrl := "https://gateway";
     username := None;
     password := None;
     connectionUuid := "c-1";
     profileUuid := "p-1";
     envQualysUsernamePropertyArg := Some "QUSER";
     envQualysPasswordPropertyArg := Some "QPASS" |}.

(** A server that accepts every upload, and an auth endpoint that issues
    ["jwt1"]; the variable [QPASS] is not set. *)
Definition demo_env : Env :=
  {| environ := {[ "QUSER" := "user" ]};
     now := "20240101_000000";
     auth_oracle := λ _, Response 200 "jwt1";
     upload_oracle := λ _, Response 200 "ok";
     move_fails := λ _, false |}.

(** A server that answers the first upload with 401 and accepts the later
    ones, and an auth endpoint that issues ["jwt1"]. *)
Definition expired_once_env : Env :=
  {| environ := ∅;
     now := "20240101_000000";
     auth_oracle := λ _, Response 200 "jwt1";
     upload_oracle := λ k, match k with
                           | O => Response 401 "expired"
                           | S _ => Response 200 "ok"
                           end;
     move_fails := λ _, false |}.

(** A server that answers the first upload with 500, the second with 401
    and accepts the later ones, and an auth endpoint that issues
    ["jwt1"]. *)
Definition expired_second_env : Env :=
  {| environ := ∅;
     now := "20240101_000000";
     auth_oracle := λ _, Response 200 "jwt1";
     upload_oracle := λ k, match k with
                           | O => Response 500 "boom"
                           | S O => Response 401 "expired"
                           | S (S _) => Response 200 "ok"
                           end;
     move_fails := λ _, false |}.

(** A server that answers the first upload with 401 and accepts the later
    ones, and an auth endpoint that is out of service. *)
Definition locked_out_env : Env :=
  {| environ := ∅;
     now := "20240101_000000";
     auth_oracle := λ _, Response 503 "unavailable";
     upload_oracle := λ k, match k with
                           | O => Response 401 "expired"
                           | S _ => Response 200 "ok"
                           end;
     move_fails := λ _, false |}.

(** A server that refuses every upload with status 500. *)
Definition failing_env : Env :=
  {| environ := ∅;
     now := "20240101_000000";
     auth_oracle := λ _, Response 200 "jwt1";
     upload_oracle := λ _, Response 500 "boom";
     move_fails := λ _, false |}.

(** An environment that refuses every move. *)
Definition refusing_env : Env :=
  {| environ := ∅;
     now := "20240101_000000";
     auth_oracle := λ _, Response 200 "jwt1";
     upload_oracle := λ _, Response 200 "ok";
     move_fails := λ _, true |}.

(** The string of [n] times the byte [c]. *)
Fixpoint repeat_char (c : Ascii.ascii) (n : nat) : string :=
  match n with
  | O => ""
  | S k => String c (repeat_char c k)
  end.

(** The longest field that [csv.reader] accepts: [csv.field_size_limit()],
    which the program leaves at its default. *)
Definition field_size_limit : Z := 131072.

(** A row of 40 fields of 131071 bytes each: every field is within the
    limit of [csv.reader], and the loop counts 5 MiB for the row. *)
Definition big_row (c : Ascii.ascii) : Row :=
  repeat (repeat_char c (Z.to_nat 131071)) 40.
Arguments big_row c%_char.

(** A source with a header row and two such data rows, 5 MiB each. *)
Definition big_state : State :=
  {| generated_jwt := "jwt0";
     files := {[ ["data"; "assets.csv"]
                 := [["id"; "name"]; big_row "a"; big_row "b"] ]};
     dirs := {[ ["data"] ]};
     n_auth := 0; n_upload := 0; n_move := 0; trace := [] |}.

(** ** Relations for whole runs *)

(** An upload that was answered with 401. *)
Definition is_401 (e : Event) : bool :=
  match e with
  | EvUpload _ _ _ _ (Response code _) => code =? 401
  | _ => false
  end.

(** The uploads of a stretch of history that were answered with 401. *)
Definition answered_401 (tr : list Event) : list Event :=
  List.filter is_401 tr.

(** The history grows, and the auth endpoint was asked once for each
    upload answered with 401. *)
Definition reauth_counted (s s' : State) : Prop :=
  ∃ tr, trace s' = trace s ++ tr
        ∧ n_auth s' = (n_auth s + length (answered_401 tr))%nat.

(** The chunk file written last, and the number of upload requests that
    may still be sent for it: a write allows [stop_after_attempt] requests
    for the file written, and every upload request uses one of them up. *)
Definition budget_step (st : option path * nat) (e : Event) :
    option path * nat :=
  match e with
  | EvWrite p _ => (Some p, stop_after_attempt)
  | EvUpload _ _ _ _ _ => (st.1, pred st.2)
  | _ => st
  end.

(** Every upload request of the history is for the chunk file written
    last, a file of the directory [out], and is one of the requests still
    allowed for that file. *)
Fixpoint budgeted (out : path) (st : option path * nat) (tr : list Event) :
    Prop :=
  match tr with
  | [] => True
  | e :: tr' =>
      match e with
      | EvUpload _ _ name _ _ => st.1 = Some (out ++ [name]) ∧ (0 < st.2)%nat
      | _ => True
      end
      ∧ budgeted out (budget_step st e) tr'
  end.

(** The history grows by a stretch that keeps to the budget, whatever was
    written and sent before. *)
Definition requests_budgeted (out : path) (s s' : State) : Prop :=
  ∃ tr, trace s' = trace s ++ tr ∧ ∀ st, budgeted out st tr.

(** What a run does to files: it writes a file of the directory [out], or
    moves a file of [out] into a sub-directory of [out] under the same
    name. *)
Definition confined (out : path) (e : Event) : Prop :=
  match e with
  | EvWrite p _ => ∃ name, p = out ++ [name]
  | EvMove src dst =>
      ∃ name processed, src = out ++ [name] ∧ dst = out ++ [processed; name]
  | _ => True
  end.

(** The history grows by a stretch whose writes and moves are confined to
    the directory [out]. *)
Definition writes_confined (out : path) (s s' : State) : Prop :=
  ∃ tr, trace s' = trace s ++ tr ∧ Forall (confined out) tr.

(** An event that is a request to the auth endpoint or a log record. *)
Definition auth_or_log (e : Event) : Prop :=
  match e with
  | EvAuth _ _ _ _ | EvLog _ => True
  | _ => False
  end.

(** In a stretch of history, every upload request carries the name and the
    content of a chunk file written earlier in the stretch into the
    directory [out]. *)
Definition uploads_written (out : path) (tr : list Event) : Prop :=
  ∀ i url a name body r,
    tr !! i = Some (EvUpload url a name body r) →
    ∃ j, (j < i)%nat ∧ tr !! j = Some (EvWrite (out ++ [name]) body).

Definition uploads_follow_writes (out : path) (s s' : State) : Prop :=
  ∃ tr, trace s' = trace s ++ tr ∧ uploads_written out tr.

(** If the file [p] holds [body], it still does afterwards, and the upload
    requests of the stretch of history that was added carry [name] and
    [body]. *)
Definition uploads_carry (p : path) (name : string) (body : list Row)
    (s s' : State) : Prop :=
  files s !! p = Some body →
  files s' !! p = Some body
  ∧ ∃ tr, trace s' = trace s ++ tr
          ∧ Forall (λ e, match e with
                         | EvUpload _ _ name' body' _ =>
                             name' = name ∧ body' = body
                         | EvWrite _ _ => False
                         | _ => True
                         end) tr.

(** The files that do not lie under [out] are the same in both states. *)
Definition outside_unchanged (out : path) (s s' : State) : Prop :=
  ∀ p, ¬ out `prefix_of` p → files s' !! p = files s !! p.

(** The directories are the same in both states. *)
Definition dirs_kept (s s' : State) : Prop := dirs s' = dirs s.

(** The file of the chunk [c] is on disk, in the run directory [out] or in
    its sub-directory [processed], with the header row and the rows of the
    chunk. *)
Definition chunk_on_disk (out : path) (processed : string) (headers : Row)
    (filename : string) (s : State) (c : Z * list Row) : Prop :=
  files s !! (out ++ [chunk_name filename c.1]) = Some (headers :: c.2)
  ∨ files s !! (out ++ [processed; chunk_name filename c.1])
    = Some (headers :: c.2).

(** The uploader as [__init__] sets it up before the credentials are
    settled. *)
Definition uploader_of_args (args : Args) : CsvUploader :=
  {| CSV_PATH := csvPath args;
     HEADER := default 1 (header args);
     MAX_CHUNK_SIZE := 9 * 1024 * 1024;
     BASE_URL := baseUrl args;
     USERNAME := username args;
     PASSWORD := password args;
     CONNECTION_UUID := connectionUuid args;
     PROFILE_UUID := profileUuid args;
     QAS_JWT_TOKEN_URI := "/auth";
     PROCESSED_DIR := "uploaded";
     envQualysUsernameProperty := envQualysUsernamePropertyArg args;
     envQualysPasswordProperty := envQualysPasswordPropertyArg args |}.

(** * Properties *)

Ltac unfold_monad :=
  unfold mbind, M_bind, bind, catch, ret, raise, get, modify, logging in *.

(** ** Relations between the state before and after a computation *)

Section Preserves.

Context (R : relation State) `{!Reflexive R, !Transitive R}.

Lemma preserves_ret {A} (a : A) : preserves R (ret a).
Proof. intros s. reflexivity. Qed.

Lemma preserves_raise {A} (e : Exn) : preserves R (@raise A e).
Proof. intros s. reflexivity. Qed.

Lemma preserves_get {A} (f : State → A) : preserves R (get f).
Proof. intros s. reflexivity. Qed.

Lemma preserves_modify (f : State → State) :
  (∀ s, R s (f s)) → preserves R (modify f).
Proof. intros H s. apply H. Qed.

Lemma preserves_bind {A B} (c : M A) (k : A → M B) :
  preserves R c → (∀ a, preserves R (k a)) → preserves R (c ≫= k).
Proof.
  intros Hc Hk s. unfold_monad. specialize (Hc s).
  destruct (c s) as [[a|e] s1]; simpl in *; [|done].
  etrans; [exact Hc|apply Hk].
Qed.

Lemma preserves_catch {A} (c : M A) (h : Exn → M A) :
  preserves R c → (∀ e, preserves R (h e)) → preserves R (catch c h).
Proof.
  intros Hc Hh s. unfold catch. specialize (Hc s).
  destruct (c s) as [[a|e] s1]; simpl in *; [done|].
  etrans; [exact Hc|apply Hh].
Qed.

Lemma preserves_retrying {A} (n : nat) (f : M A) :
  preserves R f → preserves R (retrying n f).
Proof.
  intros Hf. induction n as [|n IH]; simpl.
  - apply preserves_raise.
  - apply preserves_catch; [done|]. intros e s.
    unfold retry_if_exception_type_Exception. apply IH.
Qed.

End Preserves.

(** Splits a goal [preserves R c] along the structure of [c], down to the
    state updates. *)
Ltac preserves_steps :=
  repeat match goal with
    | |- preserves _ (ret _) => apply preserves_ret; apply _
    | |- preserves _ (raise _) => apply preserves_raise; apply _
    | |- preserves _ (get _) => apply preserves_get; apply _
    | |- preserves _ (modify _) => apply preserves_modify
    | |- preserves _ (logging _) => apply preserves_modify
    | |- preserves _ (_ ≫= _) => apply preserves_bind; [apply _| |intros ?]
    | |- preserves _ (catch _ _) => apply preserves_catch; [apply _| |intros ?]
    | |- preserves _ (retrying _ _) => apply preserves_retrying; [apply _..|]
    | |- preserves _ (match ?x with _ => _ end) => destruct x
    end.

(** ** The chunk file *)

Lemma write_chunk_eq (self : CsvUploader) (rows : list Row) (index : Z)
    (headers : Row) (filename : string) (output_dir : path) (s : State) :
  _write_chunk self rows index headers filename output_dir s
  = if decide (output_dir ∈ dirs s)
    then (Ok (chunk_name filename index),
          written rows index headers filename output_dir s)
    else (Raise (FileNotFoundError
                   (output_dir ++ [chunk_name filename index])), s).
Proof.
  unfold _write_chunk. unfold_monad.
  by destruct (decide (output_dir ∈ dirs s)).
Qed.

(** C7: in a directory that exists, [_write_chunk] returns the name of the
    chunk file, and the file it wrote holds the header row first and then
    the rows of the buffer it was given, in their order. *)
Theorem write_chunk_header_first (self : CsvUploader) (rows : list Row)
    (index : Z) (headers : Row) (filename : string) (output_dir : path)
    (s : State) :
  output_dir ∈ dirs s →
  ∃ s',
    _write_chunk self rows index headers filename output_dir s
      = (Ok (chunk_name filename index), s')
    ∧ files s' !! (output_dir ++ [chunk_name filename index])
      = Some (headers :: rows)
    ∧ trace s'
      = trace s
        ++ [EvWrite (output_dir ++ [chunk_name filename index])
              (headers :: rows);
            EvLog (LogWritten (chunk_name filename index) (length rows)
                     (output_dir ++ [chunk_name filename index]))].
Proof.
  intros Hdir. rewrite write_chunk_eq.
  destruct (decide (output_dir ∈ dirs s)) as [_|Hn]; [|done].
  eexists. split; [reflexivity|]. simpl. split.
  - apply lookup_insert_eq.
  - by rewrite <- app_assoc.
Qed.

Lemma write_chunk_header_first_witness :
  ∃ s',
    _write_chunk demo_uploader [["1"; "ab"]; ["2"; "cd"]] 1 ["id"; "name"]
      "assets" ["data"] demo_state
      = (Ok "assets_1.csv", s')
    ∧ files s' !! ["data"; "assets_1.csv"]
      = Some [["id"; "name"]; ["1"; "ab"]; ["2"; "cd"]].
Proof.
  destruct (write_chunk_header_first demo_uploader [["1"; "ab"]; ["2"; "cd"]]
              1 ["id"; "name"] "assets" ["data"] demo_state)
    as (s' & Hrun & Hfile & _).
  - vm_compute. reflexivity.
  - exists s'. split; [exact Hrun|exact Hfile].
Defined.

(** ** Construction *)

(** C8: when both names of environment variables are configured and one of
    the two variables is unset, [__init__] raises [RuntimeError]; up to
    then only a log line was produced, so no request was sent to the auth
    endpoint or to the upload endpoint, and [start] ends with the same
    error. *)
Theorem init_unset_env_fails_before_network (E : Env) (args : Args)
    (uvar pvar : string) (s : State) :
  envQualysUsernamePropertyArg args = Some uvar →
  envQualysPasswordPropertyArg args = Some pvar →
  environ E !! uvar = None ∨ environ E !! pvar = None →
  ∃ msg s',
    __init__ E args s = (Raise (RuntimeError msg), s')
    ∧ start E args s = (Raise (RuntimeError msg), s')
    ∧ trace s' = trace s ++ [EvLog LogReadingEnv]
    ∧ n_auth s' = n_auth s
    ∧ n_upload s' = n_upload s.
Proof.
  intros Hu Hp Hunset.
  exists "Env properties were provided but not set for username password".
  exists (emit (EvLog LogReadingEnv) s).
  assert (Hinit : __init__ E args s
    = (Raise (RuntimeError
         "Env properties were provided but not set for username password"),
       emit (EvLog LogReadingEnv) s)).
  { unfold __init__, _fill_username_password. simpl. rewrite Hu, Hp.
    unfold_monad.
    destruct Hunset as [H|H]; rewrite H; [done|].
    by destruct (environ E !! uvar). }
  split; [exact Hinit|]. split; [|done].
  unfold start. unfold mbind, M_bind, bind. by rewrite Hinit.
Qed.

Lemma init_unset_env_fails_before_network_witness :
  ∃ msg s',
    __init__ demo_env demo_env_args demo_state
      = (Raise (RuntimeError msg), s')
    ∧ start demo_env demo_env_args demo_state
      = (Raise (RuntimeError msg), s')
    ∧ trace s' = trace demo_state ++ [EvLog LogReadingEnv]
    ∧ n_auth s' = n_auth demo_state
    ∧ n_upload s' = n_upload demo_state.
Proof.
  apply (init_unset_env_fails_before_network demo_env demo_env_args
           "QUSER" "QPASS" demo_state).
  - reflexivity.
  - reflexivity.
  - right. vm_compute. reflexivity.
Defined.

(** ** The session token along the history *)

Lemma current_jwt_app (jwt : string) (tr1 tr2 : list Event) :
  current_jwt jwt (tr1 ++ tr2) = current_jwt (current_jwt jwt tr1) tr2.
Proof. apply fold_left_app. Qed.

Lemma bearer_consistent_app (jwt : string) (tr1 tr2 : list Event) :
  bearer_consistent jwt (tr1 ++ tr2)
  ↔ bearer_consistent jwt tr1
    ∧ bearer_consistent (current_jwt jwt tr1) tr2.
Proof.
  revert jwt. induction tr1 as [|e tr1 IH]; intros jwt; simpl.
  - tauto.
  - rewrite IH. unfold current_jwt. simpl. tauto.
Qed.

#[export] Instance token_tracked_refl : Reflexive token_tracked.
Proof. intros s. exists []. by rewrite app_nil_r. Qed.

#[export] Instance token_tracked_trans : Transitive token_tracked.
Proof.
  intros s1 s2 s3 (tr1 & Ht1 & Hc1 & Hj1) (tr2 & Ht2 & Hc2 & Hj2).
  exists (tr1 ++ tr2). split; [by rewrite Ht2, Ht1, app_assoc|]. split.
  - apply bearer_consistent_app. by rewrite <- Hj1.
  - by rewrite current_jwt_app, <- Hj1.
Qed.

#[export] Instance upload_frame_refl : Reflexive upload_frame.
Proof. by intros s. Qed.

#[export] Instance upload_frame_trans : Transitive upload_frame.
Proof.
  intros s1 s2 s3 (?&?&?&?) (?&?&?&?). unfold upload_frame.
  repeat split; congruence.
Qed.

Lemma writes_snoc_other (tr : list Event) (e : Event) :
  (∀ p c, e ≠ EvWrite p c) → writes (tr ++ [e]) = writes tr.
Proof.
  intros He. unfold writes. rewrite omap_app. simpl.
  destruct e; try by rewrite app_nil_r. by destruct (He p content).
Qed.

(** ** The upload client *)

Lemma upload_frame_emit (e : Event) (s : State) :
  (∀ p c, e ≠ EvWrite p c) → upload_frame s (emit e s).
Proof.
  intros He. unfold upload_frame. simpl. by rewrite writes_snoc_other.
Qed.

Lemma generate_jwt_frame (E : Env) (self : CsvUploader) :
  preserves upload_frame (_generate_jwt E self).
Proof.
  unfold _generate_jwt. preserves_steps;
    try (intros s; apply upload_frame_emit; discriminate); by intros s.
Qed.

Lemma upload_call_wrapped_frame (E : Env) (self : CsvUploader) (p : path)
    (name : string) :
  preserves upload_frame (upload_call_wrapped E self p name).
Proof.
  unfold upload_call_wrapped. preserves_steps;
    try apply generate_jwt_frame;
    try (intros s; apply upload_frame_emit; discriminate); by intros s.
Qed.

Lemma upload_call_frame (E : Env) (self : CsvUploader) (p : path)
    (name : string) :
  preserves upload_frame (upload_call E self p name).
Proof.
  apply preserves_retrying; [apply _..|]. apply upload_call_wrapped_frame.
Qed.

Lemma generate_jwt_eq (E : Env) (self : CsvUploader) (s : State) :
  _generate_jwt E self s
  = match auth_oracle E (n_auth s) with
    | TransportError =>
        (Raise RequestException, emit (EvLog LogJwtFailed) (asked E self s))
    | Response code text =>
        if raise_for_status code
        then (Raise RequestException,
              emit (EvLog LogJwtFailed) (asked E self s))
        else (Ok text, emit (EvLog LogJwtGenerated) (asked E self s))
    end.
Proof.
  unfold _generate_jwt, asked. unfold_monad. simpl.
  destruct (auth_oracle E (n_auth s)) as [|code text]; [done|].
  by destruct (raise_for_status code).
Qed.

Lemma upload_call_wrapped_eq (E : Env) (self : CsvUploader) (p : path)
    (name : string) (s : State) :
  upload_call_wrapped E self p name s
  = match files s !! p with
    | None => (Raise (FileNotFoundError p), s)
    | Some f =>
        let s1 := sent E self name f s in
        match upload_oracle E (n_upload s) with
        | TransportError =>
            (Raise RequestException, emit (EvLog (LogUploadError name)) s1)
        | Response code text =>
            if code =? 200
            then (Ok (Response code text), emit (EvLog (LogUploaded p)) s1)
            else if code =? 401
            then match _generate_jwt E self s1 with
                 | (Ok t, s2) =>
                     (Raise (UploadFailed code), set_generated_jwt t s2)
                 | (Raise e, s2) => (Raise e, s2)
                 end
            else (Raise (UploadFailed code),
                  emit (EvLog (LogUploadWarning p text)) s1)
        end
    end.
Proof.
  unfold upload_call_wrapped, sent. unfold_monad. simpl.
  destruct (files s !! p) as [f|]; [|done].
  destruct (upload_oracle E (n_upload s)) as [|code text]; [done|].
  destruct (code =? 200); [done|]. destruct (code =? 401); [|done].
  by destruct (_generate_jwt E self _) as [[t|e] s2].
Qed.

Lemma upload_call_wrapped_token_tracked (E : Env) (self : CsvUploader)
    (p : path) (name : string) :
  preserves token_tracked (upload_call_wrapped E self p name).
Proof.
  intros s. rewrite upload_call_wrapped_eq.
  destruct (files s !! p) as [f|]; [|reflexivity]. simpl.
  destruct (upload_oracle E (n_upload s)) as [|code text] eqn:Hup;
    [|destruct (code =? 200); [|destruct (code =? 401)]];
    try (eexists [_; _]; simpl; rewrite <- app_assoc; by repeat split).
  rewrite generate_jwt_eq. simpl.
  destruct (auth_oracle E (n_auth s)) as [|acode t] eqn:Hauth;
    [|destruct (raise_for_status acode) eqn:Hst];
    (eexists [_; _; _]; simpl; rewrite <- !app_assoc;
     split; [done|]; split; [done|];
     unfold current_jwt; simpl; by rewrite Hauth, ?Hst).
Qed.

Lemma upload_call_token_tracked (E : Env) (self : CsvUploader) (p : path)
    (name : string) :
  preserves token_tracked (upload_call E self p name).
Proof.
  apply preserves_retrying; [apply _..|].
  apply upload_call_wrapped_token_tracked.
Qed.

(** An attempt that raises is repeated from the state it left, while the
    budget lasts. *)
Lemma retrying_raise {A} (n : nat) (f : M A) (e : Exn) (s s' : State) :
  f s = (Raise e, s') → retrying (S n) f s = retrying n f s'.
Proof. intros Hf. simpl. unfold catch. by rewrite Hf. Qed.

Lemma retrying_return {A} (n : nat) (f : M A) (a : A) (s s' : State) :
  f s = (Ok a, s') → retrying (S n) f s = (Ok a, s').
Proof. intros Hf. simpl. unfold catch. by rewrite Hf. Qed.

(** An attempt that finds the chunk file starts with the request, which
    carries the stored token. *)
Lemma upload_call_wrapped_request (E : Env) (self : CsvUploader) (p : path)
    (name : string) (f : list Row) (s : State) :
  files s !! p = Some f →
  ∃ tr,
    trace (upload_call_wrapped E self p name s).2
    = trace s
      ++ EvUpload (upload_url self) ("Bearer " +:+ generated_jwt s) name f
           (upload_oracle E (n_upload s)) :: tr.
Proof.
  intros Hfile. rewrite upload_call_wrapped_eq, Hfile. unfold sent. simpl.
  destruct (upload_oracle E (n_upload s)) as [|code text];
    [|destruct (code =? 200); [|destruct (code =? 401)]];
    try (eexists; simpl; by rewrite <- app_assoc).
  rewrite generate_jwt_eq. simpl.
  destruct (auth_oracle E (n_auth s)) as [|acode t];
    [|destruct (raise_for_status acode)];
    eexists; simpl; by rewrite <- !app_assoc.
Qed.

(** ** Relations that only the upload client can disturb *)

Section Quiet.

Context (R : relation State) `{!Reflexive R, !Transitive R}.
Hypothesis R_log : ∀ l s, R s (emit (EvLog l) s).
Hypothesis R_move : ∀ src dst s, R s (emit (EvMove src dst) s).
Hypothesis R_write : ∀ p c s, R s (emit (EvWrite p c) s).
Hypothesis R_files : ∀ f s, R s (set_files f s).
Hypothesis R_dirs : ∀ d s, R s (set_dirs d s).
Hypothesis R_tick_move : ∀ s, R s (tick_move s).

Variable E : Env.
Hypothesis R_upload :
  ∀ self p name, preserves R (upload_call E self p name).

Lemma shutil_move_preserves (src dst : path) :
  preserves R (shutil_move E src dst).
Proof. unfold shutil_move. preserves_steps; auto. Qed.

Lemma upload_csv_file_preserves (self : CsvUploader) (name : string)
    (output_dir : path) :
  preserves R (upload_csv_file E self name output_dir).
Proof.
  unfold upload_csv_file. preserves_steps; auto.
  apply shutil_move_preserves.
Qed.

Lemma write_chunk_preserves (self : CsvUploader) (rows : list Row)
    (index : Z) (headers : Row) (filename : string) (output_dir : path) :
  preserves R (_write_chunk self rows index headers filename output_dir).
Proof. unfold _write_chunk. preserves_steps; auto. Qed.

Lemma prepare_output_directory_preserves (self : CsvUploader) :
  preserves R (_prepare_output_directory E self).
Proof.
  unfold _prepare_output_directory. preserves_steps; auto.
  intros s. apply R_dirs.
Qed.

Lemma for_row_preserves (self : CsvUploader) (headers : Row)
    (filename : string) (output_dir : path) (b : Buffer) (row : Row) :
  preserves R (for_row E self headers filename output_dir b row).
Proof.
  unfold for_row. preserves_steps.
  - apply write_chunk_preserves.
  - apply upload_csv_file_preserves.
Qed.

Lemma for_rows_preserves (self : CsvUploader) (headers : Row)
    (filename : string) (output_dir : path) (rows : list Row) (b : Buffer) :
  preserves R (for_rows E self headers filename output_dir rows b).
Proof.
  revert b. induction rows as [|row rest IH]; intros b; simpl.
  - apply preserves_ret; apply _.
  - apply preserves_bind; [apply _|apply for_row_preserves|apply IH].
Qed.

Lemma skip_rows_preserves (n : nat) (reader : list Row) :
  preserves R (skip_rows n reader).
Proof.
  revert reader. induction n as [|n IH]; intros reader; simpl.
  - apply preserves_ret; apply _.
  - destruct reader; [apply preserves_raise; apply _|apply IH].
Qed.

Lemma process_and_upload_chunks_preserves (self : CsvUploader) :
  preserves R (process_and_upload_chunks E self).
Proof.
  unfold process_and_upload_chunks.
  apply preserves_bind;
    [apply _|apply prepare_output_directory_preserves|intros [out fn]].
  apply preserves_bind; [apply _|apply preserves_get; apply _|intros fs].
  destruct (CSV_PATH self ≫= _); [|apply preserves_raise; apply _].
  apply preserves_bind; [apply _|apply skip_rows_preserves|intros reader].
  destruct reader as [|headers rows]; [apply preserves_raise; apply _|].
  apply preserves_bind; [apply _|apply for_rows_preserves|intros b].
  destruct (chunk b); [apply preserves_ret; apply _|].
  apply preserves_bind;
    [apply _|apply write_chunk_preserves|intros name].
  apply upload_csv_file_preserves.
Qed.

End Quiet.

(** ** The token over a whole run *)

Lemma token_tracked_emit (e : Event) (s : State) :
  match e with EvAuth _ _ _ _ | EvUpload _ _ _ _ _ => False | _ => True end →
  token_tracked s (emit e s).
Proof. intros He. exists [e]. by destruct e. Qed.

Lemma token_tracked_same (s s' : State) :
  trace s' = trace s → generated_jwt s' = generated_jwt s →
  token_tracked s s'.
Proof. intros Ht Hj. exists []. by rewrite app_nil_r. Qed.

Lemma process_and_upload_chunks_token_tracked (E : Env)
    (self : CsvUploader) :
  preserves token_tracked (process_and_upload_chunks E self).
Proof.
  apply process_and_upload_chunks_preserves; try apply _;
    try (intros; by apply token_tracked_emit);
    try (intros; by apply token_tracked_same).
  apply upload_call_token_tracked.
Qed.

Lemma auth_after_401_app (tr1 tr2 : list Event) :
  auth_after_401 tr1 → auth_after_401 tr2 → auth_after_401 (tr1 ++ tr2).
Proof.
  intros H1 H2 i url u p r Hi.
  apply lookup_app_Some in Hi as [Hi|[Hlen Hi]].
  - destruct (H1 _ _ _ _ _ Hi) as (j & url' & a & name & body & text & -> & Hj).
    exists j, url', a, name, body, text. split; [done|].
    by apply lookup_app_l_Some.
  - destruct (H2 _ _ _ _ _ Hi)
      as (j & url' & a & name & body & text & Hij & Hj).
    exists (length tr1 + j)%nat, url', a, name, body, text. split; [lia|].
    rewrite lookup_app_r by lia. by replace (length tr1 + j - length tr1)%nat
      with j by lia.
Qed.

Lemma auth_after_401_quiet (tr : list Event) :
  Forall (λ e, match e with EvAuth _ _ _ _ => False | _ => True end) tr →
  auth_after_401 tr.
Proof.
  intros Hq i url u p r Hi.
  by destruct (proj1 (Forall_lookup _ _) Hq i _ Hi).
Qed.

#[export] Instance reauth_only_after_401_refl :
  Reflexive reauth_only_after_401.
Proof.
  intros s. exists []. split; [by rewrite app_nil_r|].
  by apply auth_after_401_quiet.
Qed.

#[export] Instance reauth_only_after_401_trans :
  Transitive reauth_only_after_401.
Proof.
  intros s1 s2 s3 (tr1 & Ht1 & H1) (tr2 & Ht2 & H2).
  exists (tr1 ++ tr2). split; [by rewrite Ht2, Ht1, app_assoc|].
  by apply auth_after_401_app.
Qed.

Lemma reauth_only_after_401_emit (e : Event) (s : State) :
  match e with EvAuth _ _ _ _ => False | _ => True end →
  reauth_only_after_401 s (emit e s).
Proof.
  intros He. exists [e]. split; [done|].
  apply auth_after_401_quiet. by constructor.
Qed.

Lemma reauth_only_after_401_same (s s' : State) :
  trace s' = trace s → reauth_only_after_401 s s'.
Proof. intros Ht. exists []. rewrite app_nil_r. split; [done|].
  by apply auth_after_401_quiet. Qed.

Lemma upload_call_wrapped_reauth (E : Env) (self : CsvUploader) (p : path)
    (name : string) :
  preserves reauth_only_after_401 (upload_call_wrapped E self p name).
Proof.
  intros s. rewrite upload_call_wrapped_eq. unfold sent.
  destruct (files s !! p) as [f|]; [|reflexivity]. simpl.
  destruct (upload_oracle E (n_upload s)) as [|code text] eqn:Hup;
    [|destruct (code =? 200) eqn:H200; [|destruct (code =? 401) eqn:H401]];
    try (eexists [_; _]; simpl; rewrite <- app_assoc; split; [done|];
         apply auth_after_401_quiet; by repeat constructor).
  apply Z.eqb_eq in H401 as ->.
  assert (Hok : ∀ r l,
    auth_after_401
      [EvUpload (upload_url self) ("Bearer " +:+ generated_jwt s) name f
         (Response 401 text);
       EvAuth (BASE_URL self +:+ QAS_JWT_TOKEN_URI self) (USERNAME self)
         (PASSWORD self) r;
       EvLog l]).
  { intros r l [|[|[|i]]] url u p' r' Hi; try done.
    eexists 0%nat, _, _, _, _, _. by split. }
  rewrite generate_jwt_eq. simpl.
  destruct (auth_oracle E (n_auth s)) as [|acode t] eqn:Hauth;
    [|destruct (raise_for_status acode)];
    (eexists [_; _; _]; simpl; rewrite <- !app_assoc, ?Hup;
     split; [done|]; apply Hok).
Qed.

Lemma process_and_upload_chunks_reauth (E : Env) (self : CsvUploader) :
  preserves reauth_only_after_401 (process_and_upload_chunks E self).
Proof.
  apply process_and_upload_chunks_preserves; try apply _;
    try (intros; by apply reauth_only_after_401_emit);
    try (intros; by apply reauth_only_after_401_same).
  intros self' p name. apply preserves_retrying; [apply _..|].
  apply upload_call_wrapped_reauth.
Qed.

(** C10: an attempt whose request is not answered with 401 (a 200, another
    status, a transport error, or no request at all) leaves the stored
    token as it was; over a whole run every upload request carries the
    token in force, which is the token of the latest accepted
    authentication and stays stored from one chunk to the next; and the
    auth endpoint is asked only right after an upload answered with 401. *)
Theorem token_replaced_only_on_401 (E : Env) (self : CsvUploader) :
  (∀ p name s,
     (∀ text, upload_oracle E (n_upload s) ≠ Response 401 text) →
     generated_jwt (upload_call_wrapped E self p name s).2
     = generated_jwt s)
  ∧ (∀ s, token_tracked s (process_and_upload_chunks E self s).2)
  ∧ (∀ s, reauth_only_after_401 s (process_and_upload_chunks E self s).2).
Proof.
  split; [|split].
  - intros p name s Hno. rewrite upload_call_wrapped_eq.
    destruct (files s !! p) as [f|]; [|done]. simpl.
    destruct (upload_oracle E (n_upload s)) as [|code text]; [done|].
    destruct (code =? 200); [done|].
    destruct (code =? 401) eqn:H401; [|done].
    apply Z.eqb_eq in H401 as ->. by destruct (Hno text).
  - apply process_and_upload_chunks_token_tracked.
  - apply process_and_upload_chunks_reauth.
Qed.

Lemma token_replaced_only_on_401_witness :
  generated_jwt
    (upload_call_wrapped demo_env demo_uploader ["data"; "assets.csv"]
       "assets.csv" demo_state).2
  = "jwt0".
Proof.
  apply (proj1 (token_replaced_only_on_401 demo_env demo_uploader)
           ["data"; "assets.csv"] "assets.csv" demo_state).
  intros text. simpl. discriminate.
Defined.

(** ** Retries and relocation *)

Lemma shutil_move_eq (E : Env) (src dst : path) (s : State) :
  shutil_move E src dst s
  = if move_fails E (n_move s) then (Raise (OSError dst), tick_move s)
    else match files s !! src with
         | None => (Raise (FileNotFoundError src), tick_move s)
         | Some content =>
             if decide (dirname dst ∈ dirs s)
             then (Ok tt,
                   emit (EvMove src dst)
                     (set_files (<[dst := content]> (delete src (files s)))
                        (tick_move s)))
             else (Raise (FileNotFoundError dst), tick_move s)
         end.
Proof.
  unfold shutil_move. unfold_monad. simpl.
  destruct (move_fails E (n_move s)); [done|].
  change (files (tick_move s)) with (files s).
  change (dirs (tick_move s)) with (dirs s).
  destruct (files s !! src); [|done].
  by destruct (decide (dirname dst ∈ dirs s)).
Qed.

Lemma shutil_move_not_RetryError (E : Env) (src dst : path) (s s' : State)
    (e : Exn) :
  shutil_move E src dst s = (Raise e, s') → e ≠ RetryError.
Proof.
  rewrite shutil_move_eq.
  destruct (move_fails E (n_move s)); [by intros [= <- _]|].
  destruct (files s !! src); [|by intros [= <- _]].
  destruct (decide (dirname dst ∈ dirs s)); [done|by intros [= <- _]].
Qed.

(** [retrying] ends with a result or with [RetryError]. *)
Lemma retrying_result {A} (n : nat) (f : M A) (s : State) :
  (∃ a, (retrying n f s).1 = Ok a) ∨ (retrying n f s).1 = Raise RetryError.
Proof.
  revert s. induction n as [|n IH]; intros s; simpl; [by right|].
  unfold catch. destruct (f s) as [[a|e] s1]; [left; by exists a|].
  apply IH.
Qed.

Lemma upload_csv_file_eq (E : Env) (self : CsvUploader) (name : string)
    (out : path) (s : State) :
  upload_csv_file E self name out s
  = match upload_call E self (out ++ [name]) name s with
    | (Ok _, s1) =>
        match shutil_move E (out ++ [name])
                (out ++ [PROCESSED_DIR self; name]) s1 with
        | (Ok _, s2) =>
            (Ok tt,
             emit (EvLog (LogMoved name (out ++ [PROCESSED_DIR self; name])))
               s2)
        | (Raise e, s2) => (Raise e, s2)
        end
    | (Raise _, s1) =>
        (Ok tt, emit (EvLog (LogFailedAfterAttempts (out ++ [name]))) s1)
    end.
Proof.
  unfold upload_csv_file. unfold_monad.
  pose proof (retrying_result stop_after_attempt
    (upload_call_wrapped E self (out ++ [name]) name) s) as Hres.
  fold (upload_call E self (out ++ [name]) name) in Hres.
  destruct (upload_call E self (out ++ [name]) name s) as [[r|e] s1].
  - destruct (shutil_move E _ _ s1) as [[[]|e] s2] eqn:Hmove; [done|].
    apply shutil_move_not_RetryError in Hmove. by destruct e.
  - destruct Hres as [[a [=]]|[= ->]]. done.
Qed.

(** *** Counting the upload requests *)

Lemma generate_jwt_n_upload (E : Env) (self : CsvUploader) (s : State) :
  n_upload (_generate_jwt E self s).2 = n_upload s.
Proof.
  rewrite generate_jwt_eq.
  destruct (auth_oracle E (n_auth s)) as [|code t]; [done|].
  by destruct (raise_for_status code).
Qed.

Lemma upload_call_wrapped_count (E : Env) (self : CsvUploader) (p : path)
    (name : string) (s : State) :
  (n_upload (upload_call_wrapped E self p name s).2 ≤ S (n_upload s))%nat.
Proof.
  rewrite upload_call_wrapped_eq.
  destruct (files s !! p) as [f|]; simpl; [|lia].
  destruct (upload_oracle E (n_upload s)) as [|code text]; simpl; [lia|].
  destruct (code =? 200); simpl; [lia|].
  destruct (code =? 401); simpl; [|lia].
  pose proof (generate_jwt_n_upload E self (sent E self name f s)) as Hn.
  destruct (_generate_jwt E self _) as [[t|e] s2]; simpl in *; lia.
Qed.

Lemma retrying_count (n : nat) (f : M HttpResult) (s : State) :
  (∀ s, n_upload (f s).2 ≤ S (n_upload s))%nat →
  (n_upload (retrying n f s).2 ≤ n_upload s + n)%nat.
Proof.
  intros Hf. revert s. induction n as [|n IH]; intros s; simpl; [lia|].
  unfold catch. specialize (Hf s).
  destruct (f s) as [[a|e] s1]; simpl in *; [lia|].
  specialize (IH s1). unfold retry_if_exception_type_Exception. lia.
Qed.

(** An attempt that finds the file and is not answered with 200 raises,
    and one request was sent. *)
Lemma upload_call_wrapped_fails (E : Env) (self : CsvUploader) (p : path)
    (name : string) (f : list Row) (s : State) :
  files s !! p = Some f →
  (∀ text, upload_oracle E (n_upload s) ≠ Response 200 text) →
  ∃ e s1,
    upload_call_wrapped E self p name s = (Raise e, s1)
    ∧ n_upload s1 = S (n_upload s)
    ∧ upload_frame s s1.
Proof.
  intros Hfile Hno.
  pose proof (upload_call_wrapped_frame E self p name s) as Hframe.
  pose proof (upload_call_wrapped_eq E self p name s) as Heq.
  rewrite Hfile in Heq. simpl in Heq.
  destruct (upload_oracle E (n_upload s)) as [|code text] eqn:Hup.
  { rewrite Heq in Hframe. by eexists _, _. }
  destruct (code =? 200) eqn:H200.
  { apply Z.eqb_eq in H200 as ->. by destruct (Hno text). }
  destruct (code =? 401).
  - pose proof (generate_jwt_n_upload E self (sent E self name f s)) as Hn.
    destruct (_generate_jwt E self _) as [[t|e] s2];
      rewrite Heq in Hframe; by eexists _, _.
  - rewrite Heq in Hframe. by eexists _, _.
Qed.

(** An attempt that finds the file and is answered with 200 returns. *)
Lemma upload_call_wrapped_succeeds (E : Env) (self : CsvUploader) (p : path)
    (name : string) (f : list Row) (text : string) (s : State) :
  files s !! p = Some f →
  upload_oracle E (n_upload s) = Response 200 text →
  ∃ s1,
    upload_call_wrapped E self p name s = (Ok (Response 200 text), s1)
    ∧ n_upload s1 = S (n_upload s).
Proof.
  intros Hfile Hup. rewrite upload_call_wrapped_eq, Hfile, Hup. simpl.
  by eexists.
Qed.

Lemma retrying_exhausted (E : Env) (self : CsvUploader) (p : path)
    (name : string) (f : list Row) (n : nat) (s : State) :
  files s !! p = Some f →
  (∀ k text, (k < n)%nat →
     upload_oracle E (n_upload s + k) ≠ Response 200 text) →
  ∃ s',
    retrying n (upload_call_wrapped E self p name) s = (Raise RetryError, s')
    ∧ n_upload s' = (n_upload s + n)%nat
    ∧ upload_frame s s'.
Proof.
  revert s. induction n as [|n IH]; intros s Hfile Hno.
  - exists s. simpl. split; [done|]. split; [lia|reflexivity].
  - destruct (upload_call_wrapped_fails E self p name f s Hfile)
      as (e & s1 & Hrun & Hn & Hframe).
    { intros text. specialize (Hno 0%nat text).
      rewrite Nat.add_0_r in Hno. apply Hno. lia. }
    destruct (IH s1) as (s' & Hrest & Hn' & Hframe').
    { destruct Hframe as (-> & _). done. }
    { intros k text Hk. rewrite Hn.
      replace (S (n_upload s) + k)%nat with (n_upload s + S k)%nat by lia.
      apply Hno. lia. }
    exists s'. rewrite (retrying_raise n _ e s s1 Hrun).
    split; [done|]. split; [lia|]. by etrans.
Qed.

Lemma retrying_succeeds (E : Env) (self : CsvUploader) (p : path)
    (name : string) (f : list Row) (n k : nat) (text : string) (s : State) :
  files s !! p = Some f →
  (k < n)%nat →
  (∀ j text', (j < k)%nat →
     upload_oracle E (n_upload s + j) ≠ Response 200 text') →
  upload_oracle E (n_upload s + k) = Response 200 text →
  ∃ s',
    retrying n (upload_call_wrapped E self p name) s
      = (Ok (Response 200 text), s')
    ∧ n_upload s' = (n_upload s + k + 1)%nat.
Proof.
  revert n s. induction k as [|k IH]; intros n s Hfile Hk Hno Hyes.
  - destruct n as [|n]; [lia|]. rewrite Nat.add_0_r in Hyes.
    destruct (upload_call_wrapped_succeeds E self p name f text s Hfile Hyes)
      as (s1 & Hrun & Hn).
    exists s1. rewrite (retrying_return n _ _ s s1 Hrun). split; [done|lia].
  - destruct n as [|n]; [lia|].
    destruct (upload_call_wrapped_fails E self p name f s Hfile)
      as (e & s1 & Hrun & Hn & Hframe).
    { intros text'. specialize (Hno 0%nat text').
      rewrite Nat.add_0_r in Hno. apply Hno. lia. }
    destruct (IH n s1) as (s' & Hrest & Hn').
    { destruct Hframe as (-> & _). done. }
    { lia. }
    { intros j text' Hj. rewrite Hn.
      replace (S (n_upload s) + j)%nat with (n_upload s + S j)%nat by lia.
      apply Hno. lia. }
    { rewrite Hn.
      by replace (S (n_upload s) + k)%nat with (n_upload s + S k)%nat by lia. }
    exists s'. rewrite (retrying_raise n _ e s s1 Hrun).
    split; [done|lia].
Qed.

(** *** An attempt answered with 401 *)

Lemma retrying_after_attempts {A} (k n : nat) (f : M A) (s : State) :
  (∀ j, (j < k)%nat → ∃ e, (f (after_attempts j f s)).1 = Raise e) →
  retrying (k + n) f s = retrying n f (after_attempts k f s).
Proof.
  revert s. induction k as [|k IH]; intros s Hraise; [done|].
  destruct (Hraise 0%nat) as [e He]; [lia|]. simpl in He.
  destruct (f s) as [[a|e'] s1] eqn:Hf; [done|].
  change (S k + n)%nat with (S (k + n)).
  rewrite (retrying_raise (k + n) f e' s s1 Hf).
  simpl after_attempts. rewrite Hf. simpl. apply IH.
  intros j Hj. specialize (Hraise (S j)). simpl in Hraise.
  rewrite Hf in Hraise. apply Hraise. lia.
Qed.

(** While no answer is a 200, every attempt raises, the chunk file stays in
    place and one request is sent for each attempt. *)
Lemma upload_attempts_fail (E : Env) (self : CsvUploader) (p : path)
    (name : string) (f : list Row) (k : nat) (s : State) :
  files s !! p = Some f →
  (∀ j text, (j < k)%nat →
     upload_oracle E (n_upload s + j) ≠ Response 200 text) →
  files (after_attempts k (upload_call_wrapped E self p name) s) !! p = Some f
  ∧ n_upload (after_attempts k (upload_call_wrapped E self p name) s)
    = (n_upload s + k)%nat
  ∧ ∀ j, (j < k)%nat →
      ∃ e, (upload_call_wrapped E self p name
              (after_attempts j (upload_call_wrapped E self p name) s)).1
           = Raise e.
Proof.
  revert s. induction k as [|k IH]; intros s Hfile Hno.
  - split; [done|]. split; [simpl; lia|]. intros j Hj. lia.
  - destruct (upload_call_wrapped_fails E self p name f s Hfile)
      as (e & s1 & Hrun & Hn & Hframe).
    { intros text. specialize (Hno 0%nat text).
      rewrite Nat.add_0_r in Hno. apply Hno. lia. }
    destruct (IH s1) as (Hfile' & Hn' & Hraise).
    { destruct Hframe as (-> & _). done. }
    { intros j text Hj. rewrite Hn.
      replace (S (n_upload s) + j)%nat with (n_upload s + S j)%nat by lia.
      apply Hno. lia. }
    simpl after_attempts. rewrite Hrun. simpl.
    split; [done|]. split; [lia|].
    intros [|j] Hj; simpl; [rewrite Hrun; by exists e|].
    rewrite Hrun. simpl. apply Hraise. lia.
Qed.

(** C4, with the proviso that the claim leaves out: when one of the three
    attempts of [upload_call] is answered with 401, that attempt asks the
    auth endpoint once (one more call, one auth event right after the
    upload) and ends with an exception, on which [upload_call] goes on
    with the attempts that are left, from the state the attempt ended in;
    if the auth endpoint issued a token, that token is stored in place of
    the old one, and if it did not, the old token stays; the attempt that
    follows, if one is left, sends the stored token, and all further
    requests for the chunk send the token that is in force. *)
Theorem upload_401_reauthenticates_once (E : Env) (self : CsvUploader)
    (p : path) (name : string) (f : list Row) (text : string) (k : nat)
    (s : State) :
  files s !! p = Some f →
  (k < stop_after_attempt)%nat →
  (∀ j text', (j < k)%nat →
     upload_oracle E (n_upload s + j) ≠ Response 200 text') →
  upload_oracle E (n_upload s + k) = Response 401 text →
  ∃ s0 e s' l,
    s0 = after_attempts k (upload_call_wrapped E self p name) s
    ∧ upload_call_wrapped E self p name s0 = (Raise e, s')
    ∧ n_auth s' = S (n_auth s0)
    ∧ trace s'
      = trace s0
        ++ [EvUpload (upload_url self) ("Bearer " +:+ generated_jwt s0) name
              f (Response 401 text);
            EvAuth (BASE_URL self +:+ QAS_JWT_TOKEN_URI self)
              (USERNAME self) (PASSWORD self) (auth_oracle E (n_auth s0));
            EvLog l]
    ∧ (∀ code t,
         auth_oracle E (n_auth s0) = Response code t →
         raise_for_status code = false →
         generated_jwt s' = t)
    ∧ (auth_oracle E (n_auth s0) = TransportError
       ∨ (∃ code t, auth_oracle E (n_auth s0) = Response code t
                    ∧ raise_for_status code = true) →
       generated_jwt s' = generated_jwt s0)
    ∧ upload_call E self p name s
      = retrying (stop_after_attempt - S k)
          (upload_call_wrapped E self p name) s'
    ∧ ((S k < stop_after_attempt)%nat →
       ∃ tr,
         trace (upload_call E self p name s).2
         = trace s'
           ++ EvUpload (upload_url self) ("Bearer " +:+ generated_jwt s')
                name f (upload_oracle E (n_upload s + S k)) :: tr)
    ∧ ∃ tr,
        trace (upload_call E self p name s).2 = trace s' ++ tr
        ∧ bearer_consistent (generated_jwt s') tr.
Proof.
  intros Hfile Hk Hno Hup.
  destruct (upload_attempts_fail E self p name f k s Hfile Hno)
    as (Hfile0 & Hn0 & Hraise).
  set (s0 := after_attempts k (upload_call_wrapped E self p name) s) in *.
  pose proof (upload_call_wrapped_eq E self p name s0) as Heq.
  pose proof (upload_call_wrapped_frame E self p name s0) as (Hfiles & _).
  pose proof (upload_call_wrapped_count E self p name s0) as Hcount.
  rewrite Hfile0, Hn0, Hup in Heq. simpl in Heq.
  rewrite generate_jwt_eq in Heq. simpl in Heq.
  assert (Hgo : upload_call E self p name s
                = retrying (S (stop_after_attempt - S k))
                    (upload_call_wrapped E self p name) s0).
  { unfold upload_call.
    replace stop_after_attempt
      with (k + S (stop_after_attempt - S k))%nat at 1 by lia.
    by apply retrying_after_attempts. }
  assert (Htail : ∀ e s',
    upload_call_wrapped E self p name s0 = (Raise e, s') →
    n_upload s' = S (n_upload s0) →
    upload_call E self p name s
    = retrying (stop_after_attempt - S k)
        (upload_call_wrapped E self p name) s'
    ∧ ((S k < stop_after_attempt)%nat →
       ∃ tr,
         trace (upload_call E self p name s).2
         = trace s'
           ++ EvUpload (upload_url self) ("Bearer " +:+ generated_jwt s')
                name f (upload_oracle E (n_upload s + S k)) :: tr)
    ∧ ∃ tr,
        trace (upload_call E self p name s).2 = trace s' ++ tr
        ∧ bearer_consistent (generated_jwt s') tr).
  { intros e s' Hrun Hn'. rewrite Hrun in Hfiles. simpl in Hfiles.
    assert (Hnext : upload_call E self p name s
                    = retrying (stop_after_attempt - S k)
                        (upload_call_wrapped E self p name) s').
    { rewrite Hgo. by apply retrying_raise with e. }
    split; [exact Hnext|]. rewrite Hnext. split.
    - intros Hleft.
      destruct (stop_after_attempt - S k)%nat as [|m] eqn:Hm; [lia|].
      destruct (upload_call_wrapped_request E self p name f s')
        as (tr1 & Htr1); [by rewrite Hfiles|].
      rewrite Hn', Hn0 in Htr1.
      replace (S (n_upload s + k)) with (n_upload s + S k)%nat in Htr1
        by lia.
      simpl. unfold catch.
      destruct (upload_call_wrapped E self p name s') as [[r|e1] s1];
        simpl in Htr1; [by exists tr1|].
      unfold retry_if_exception_type_Exception.
      destruct (preserves_retrying token_tracked m
                  (upload_call_wrapped E self p name)
                  (upload_call_wrapped_token_tracked E self p name) s1)
        as (tr2 & Htr2 & _).
      exists (tr1 ++ tr2). rewrite Htr2, Htr1.
      by rewrite <- app_assoc.
    - destruct (preserves_retrying token_tracked
                  (stop_after_attempt - S k)
                  (upload_call_wrapped E self p name)
                  (upload_call_wrapped_token_tracked E self p name) s')
        as (tr & Htr & Hcons & _).
      by exists tr. }
  destruct (auth_oracle E (n_auth s0)) as [|acode t] eqn:Hauth;
    [|destruct (raise_for_status acode) eqn:Hst];
    eexists s0, _, _, _; (split; [reflexivity|]);
    (split; [exact Heq|]); (split; [done|]);
    (split; [by simpl; rewrite <- !app_assoc, Hn0, Hup|]);
    (split; [|split; [|exact (Htail _ _ Heq eq_refl)]]).
  - intros code t' Ha. by rewrite Hauth in Ha.
  - by intros _.
  - intros code t' Ha Hst'. rewrite Hauth in Ha. congruence.
  - by intros _.
  - intros code t' Ha _. rewrite Hauth in Ha. by injection Ha as _ <-.
  - intros [Ha|(code & t' & Ha & Hst')]; rewrite Hauth in Ha; congruence.
Qed.

Lemma upload_401_reauthenticates_once_witness :
  ∃ s' tr,
    n_auth s' = 1%nat
    ∧ generated_jwt s' = "jwt1"
    ∧ trace (upload_call expired_second_env demo_uploader
               ["data"; "assets.csv"] "assets.csv" demo_state).2
      = trace s'
        ++ EvUpload (upload_url demo_uploader) ("Bearer " +:+ generated_jwt s')
             "assets.csv" [["id"; "name"]; ["1"; "ab"]] (Response 200 "ok")
           :: tr.
Proof.
  destruct (upload_401_reauthenticates_once expired_second_env demo_uploader
              ["data"; "assets.csv"] "assets.csv"
              [["id"; "name"]; ["1"; "ab"]] "expired" 1 demo_state)
    as (s0 & e & s' & l & Hs0 & Hrun & Hn & _ & Htok & _ & _ & Hnext & _).
  - vm_compute. reflexivity.
  - unfold stop_after_attempt. lia.
  - intros j text' Hj. replace j with 0%nat by lia. simpl. discriminate.
  - reflexivity.
  - destruct (Hnext ltac:(unfold stop_after_attempt; lia)) as (tr & Htr).
    exists s', tr. split; [rewrite Hn, Hs0; vm_compute; reflexivity|].
    split; [by apply (Htok 200)|exact Htr].
Defined.

(** C4, as the claim has it, fails when the auth endpoint does not issue a
    token: the first upload is answered with 401 and the auth endpoint with
    503, so no token replaces the stored one, and the attempt that follows
    sends the old token again. *)
Lemma reauthentication_refused_counterexample :
  let s' :=
    (upload_call locked_out_env demo_uploader ["data"; "assets.csv"]
       "assets.csv" demo_state).2 in
  generated_jwt demo_state = "jwt0"
  ∧ trace s'
    = [EvUpload (upload_url demo_uploader) "Bearer jwt0" "assets.csv"
         [["id"; "name"]; ["1"; "ab"]] (Response 401 "expired");
       EvAuth "https://gateway/auth" (Some "user") (Some "secret")
         (Response 503 "unavailable");
       EvLog LogJwtFailed;
       EvUpload (upload_url demo_uploader) "Bearer jwt0" "assets.csv"
         [["id"; "name"]; ["1"; "ab"]] (Response 200 "ok");
       EvLog (LogUploaded ["data"; "assets.csv"])]
  ∧ generated_jwt s' = "jwt0"
  ∧ n_auth s' = 1%nat.
Proof. vm_compute. repeat split; reflexivity. Qed.

(** ** A run whose moves the environment does not refuse *)

Lemma dirname_processed (out : path) (d name : string) :
  dirname (out ++ [d; name]) = out ++ [d].
Proof.
  unfold dirname. change (out ++ [d; name]) with (out ++ [d] ++ [name]).
  rewrite app_assoc. apply removelast_last.
Qed.

Lemma ancestors_or_self_prefix (p q : path) :
  p ∈ ancestors_or_self (p ++ q).
Proof.
  induction p as [|c p IH]; simpl.
  - destruct q; apply elem_of_cons; by left.
  - apply elem_of_cons. right. by apply list_elem_of_fmap_2.
Qed.

Lemma writes_snoc_write (tr : list Event) (p : path) (c : list Row) :
  writes (tr ++ [EvWrite p c]) = writes tr ++ [(p, c)].
Proof. unfold writes. by rewrite omap_app. Qed.

(** Sealing: the chunk file is written, then uploaded. *)
Lemma seal_healthy (E : Env) (self : CsvUploader) (rows : list Row)
    (index : Z) (headers : Row) (filename : string) (out : path)
    (s : State) :
  out ∈ dirs s →
  out ++ [PROCESSED_DIR self] ∈ dirs s →
  (∀ k, move_fails E k = false) →
  ∃ s1 s',
    _write_chunk self rows index headers filename out s
      = (Ok (chunk_name filename index), s1)
    ∧ upload_csv_file E self (chunk_name filename index) out s1 = (Ok tt, s')
    ∧ dirs s' = dirs s
    ∧ writes (trace s')
      = writes (trace s)
        ++ [(out ++ [chunk_name filename index], headers :: rows)].
Proof.
  intros Hout Hproc Hmove. rewrite write_chunk_eq.
  destruct (decide (out ∈ dirs s)) as [_|Hn]; [|done].
  set (name := chunk_name filename index).
  set (s1 := written rows index headers filename out s).
  assert (Hfile : files s1 !! (out ++ [name]) = Some (headers :: rows))
    by apply lookup_insert_eq.
  assert (Hw1 : writes (trace s1)
                = writes (trace s) ++ [(out ++ [name], headers :: rows)]).
  { unfold s1, written. simpl.
    rewrite writes_snoc_other by done. apply writes_snoc_write. }
  assert (Hd1 : dirs s1 = dirs s) by done.
  clearbody s1. exists s1. rewrite upload_csv_file_eq.
  pose proof (upload_call_frame E self (out ++ [name]) name s1)
    as (Hf & Hd & Hm & Hw).
  destruct (upload_call E self (out ++ [name]) name s1) as [[r|e] s2];
    simpl in Hf, Hd, Hm, Hw.
  - rewrite shutil_move_eq, Hmove, Hf, Hfile, dirname_processed, Hd, Hd1.
    destruct (decide (out ++ [PROCESSED_DIR self] ∈ dirs s)) as [_|Hn];
      [|done].
    eexists. split; [done|]. split; [reflexivity|]. simpl.
    split; [congruence|].
    rewrite !writes_snoc_other by done. by rewrite Hw.
  - eexists. split; [done|]. split; [reflexivity|]. simpl.
    split; [congruence|].
    rewrite writes_snoc_other by done. by rewrite Hw.
Qed.

Lemma for_row_healthy (E : Env) (self : CsvUploader) (headers : Row)
    (filename : string) (out : path) (b : Buffer) (row : Row) (s : State) :
  out ∈ dirs s →
  out ++ [PROCESSED_DIR self] ∈ dirs s →
  (∀ k, move_fails E k = false) →
  ∃ s',
    for_row E self headers filename out b row s
      = (Ok (next_buffer (MAX_CHUNK_SIZE self) b row), s')
    ∧ dirs s' = dirs s
    ∧ writes (trace s')
      = writes (trace s)
        ++ (write_of headers filename out
              <$> sealed_by (MAX_CHUNK_SIZE self) b row).
Proof.
  intros Hout Hproc Hmove. unfold for_row, next_buffer, sealed_by.
  destruct (current_chunk_size b + row_size row >? MAX_CHUNK_SIZE self).
  - destruct (seal_healthy E self (chunk b ++ [row]) (chunk_index b + 1)
                headers filename out s Hout Hproc Hmove)
      as (s1 & s' & Hw & Hu & Hd & Htr).
    exists s'. unfold mbind, M_bind, bind. rewrite Hw, Hu. by simpl.
  - exists s. unfold_monad. simpl. by rewrite app_nil_r.
Qed.

Lemma for_rows_healthy (E : Env) (self : CsvUploader) (headers : Row)
    (filename : string) (out : path) (rows : list Row) (b : Buffer)
    (s : State) :
  out ∈ dirs s →
  out ++ [PROCESSED_DIR self] ∈ dirs s →
  (∀ k, move_fails E k = false) →
  ∃ s',
    for_rows E self headers filename out rows b s
      = (Ok (buffer_after (MAX_CHUNK_SIZE self) rows b), s')
    ∧ dirs s' = dirs s
    ∧ writes (trace s')
      = writes (trace s)
        ++ (write_of headers filename out
              <$> sealed_in_loop (MAX_CHUNK_SIZE self) rows b).
Proof.
  intros Hout Hproc Hmove. revert b s Hout Hproc.
  induction rows as [|row rest IH]; intros b s Hout Hproc; simpl.
  - exists s. by rewrite app_nil_r.
  - destruct (for_row_healthy E self headers filename out b row s
                Hout Hproc Hmove) as (s1 & Hrow & Hd1 & Hw1).
    destruct (IH (next_buffer (MAX_CHUNK_SIZE self) b row) s1)
      as (s' & Hrest & Hd & Hw); [by rewrite Hd1..|].
    exists s'. unfold mbind, M_bind, bind. rewrite Hrow, Hrest.
    split; [done|]. split; [congruence|].
    by rewrite Hw, Hw1, fmap_app, app_assoc.
Qed.

Lemma skip_rows_app (pre rest : list Row) (s : State) :
  skip_rows (length pre) (pre ++ rest) s = (Ok rest, s).
Proof. induction pre as [|r pre IH]; simpl; [done|apply IH]. Qed.

Lemma prepare_output_directory_eq (E : Env) (self : CsvUploader)
    (csv : CsvPath) (s : State) :
  CSV_PATH self = Some csv →
  _prepare_output_directory E self s
  = (Ok (run_directory E csv, csv_stem csv),
     makedirs (run_directory E csv ++ [PROCESSED_DIR self]) s).
Proof. intros Hcsv. unfold _prepare_output_directory. by rewrite Hcsv. Qed.

Lemma makedirs_self (p : path) (s : State) : p ∈ dirs (makedirs p s).
Proof.
  simpl. apply elem_of_union_l, elem_of_list_to_set.
  pose proof (ancestors_or_self_prefix p []) as H.
  by rewrite app_nil_r in H.
Qed.

Lemma makedirs_parent (p q : path) (s : State) :
  p ∈ dirs (makedirs (p ++ q) s).
Proof.
  simpl. apply elem_of_union_l, elem_of_list_to_set.
  apply ancestors_or_self_prefix.
Qed.

(** When the source holds the rows to skip, the header row and the data
    rows, and no move is refused, the run returns, and it wrote one file
    per chunk, in the order of the chunks. *)
Lemma process_and_upload_chunks_healthy (E : Env) (self : CsvUploader)
    (csv : CsvPath) (pre : list Row) (headers : Row) (rows : list Row)
    (s : State) :
  CSV_PATH self = Some csv →
  files s !! csv_path_key csv = Some (pre ++ headers :: rows) →
  length pre = Z.to_nat (HEADER self - 1) →
  (∀ k, move_fails E k = false) →
  ∃ s',
    process_and_upload_chunks E self s = (Ok tt, s')
    ∧ writes (trace s')
      = writes (trace s)
        ++ (write_of headers (csv_stem csv) (run_directory E csv)
              <$> chunks_of (MAX_CHUNK_SIZE self) rows).
Proof.
  intros Hcsv Hfile Hpre Hmove. unfold process_and_upload_chunks.
  unfold mbind at 1, M_bind at 1, bind at 1.
  rewrite (prepare_output_directory_eq E self csv s Hcsv).
  set (out := run_directory E csv).
  set (s0 := makedirs (out ++ [PROCESSED_DIR self]) s).
  assert (Hout : out ∈ dirs s0) by apply makedirs_parent.
  assert (Hproc : out ++ [PROCESSED_DIR self] ∈ dirs s0)
    by apply makedirs_self.
  assert (Hfile0 : files s0 !! csv_path_key csv = Some (pre ++ headers :: rows))
    by exact Hfile.
  assert (Htr0 : trace s0 = trace s) by done.
  clearbody s0.
  unfold mbind at 1, M_bind at 1, bind at 1, get at 1.
  rewrite Hcsv. simpl. rewrite Hfile0.
  unfold mbind at 1, M_bind at 1, bind at 1.
  rewrite <- Hpre, skip_rows_app.
  destruct (for_rows_healthy E self headers (csv_stem csv) out rows
              empty_buffer s0 Hout Hproc Hmove) as (s1 & Hloop & Hd1 & Hw1).
  unfold mbind at 1, M_bind at 1, bind at 1.
  fold empty_buffer. rewrite Hloop. unfold chunks_of, sealed_at_end.
  rewrite fmap_app, app_assoc, <- Htr0, <- Hw1.
  destruct (chunk (buffer_after (MAX_CHUNK_SIZE self) rows empty_buffer))
    as [|r c] eqn:Hchunk.
  - exists s1. by rewrite app_nil_r.
  - destruct (seal_healthy E self (r :: c)
                (chunk_index
                   (buffer_after (MAX_CHUNK_SIZE self) rows empty_buffer) + 1)
                headers (csv_stem csv) out s1)
      as (s2 & s' & Hw & Hu & Hd & Htr); [by rewrite Hd1..|done|].
    exists s'. unfold mbind, M_bind, bind. rewrite Hw, Hu. done.
Qed.

(** ** The retry budget *)

Lemma upload_call_count (E : Env) (self : CsvUploader) (p : path)
    (name : string) (s : State) :
  (n_upload (upload_call E self p name s).2
   ≤ n_upload s + stop_after_attempt)%nat.
Proof. apply retrying_count. apply upload_call_wrapped_count. Qed.

Lemma shutil_move_n_upload (E : Env) (src dst : path) (s : State) :
  n_upload (shutil_move E src dst s).2 = n_upload s.
Proof.
  rewrite shutil_move_eq. destruct (move_fails E (n_move s)); [done|].
  destruct (files s !! src); [|done].
  by destruct (decide (dirname dst ∈ dirs s)).
Qed.

(** C5: for one chunk at most three upload requests are sent; exhaustion
    never leaves [upload_csv_file] as an exception; when the chunk file is
    there and none of the three answers is a 200 (whether a 401, another
    status or a transport error), exactly three requests are sent, the
    failure is logged, the file is not touched and [upload_csv_file]
    returns; and when no move is refused, the run returns and writes every
    chunk file whatever the two endpoints answer. *)
Theorem upload_attempts_bounded (E : Env) (self : CsvUploader)
    (name : string) (out : path) (s : State) :
  (n_upload (upload_csv_file E self name out s).2 ≤ n_upload s + 3)%nat
  ∧ (upload_csv_file E self name out s).1 ≠ Raise RetryError
  ∧ (∀ f,
       files s !! (out ++ [name]) = Some f →
       (∀ k text, (k < 3)%nat →
          upload_oracle E (n_upload s + k) ≠ Response 200 text) →
       ∃ s1,
         upload_csv_file E self name out s
         = (Ok tt, emit (EvLog (LogFailedAfterAttempts (out ++ [name]))) s1)
         ∧ n_upload s1 = (n_upload s + 3)%nat
         ∧ files s1 = files s
         ∧ n_move s1 = n_move s)
  ∧ (∀ csv pre headers rows s0,
       CSV_PATH self = Some csv →
       files s0 !! csv_path_key csv = Some (pre ++ headers :: rows) →
       length pre = Z.to_nat (HEADER self - 1) →
       (∀ k, move_fails E k = false) →
       ∃ s',
         process_and_upload_chunks E self s0 = (Ok tt, s')
         ∧ length (writes (trace s'))
           = (length (writes (trace s0))
              + length (chunks_of (MAX_CHUNK_SIZE self) rows))%nat).
Proof.
  split; [|split; [|split]].
  - rewrite upload_csv_file_eq.
    pose proof (upload_call_count E self (out ++ [name]) name s) as Hn.
    unfold stop_after_attempt in Hn.
    destruct (upload_call E self (out ++ [name]) name s) as [[r|e] s1];
      simpl in Hn; [|simpl; lia].
    pose proof (shutil_move_n_upload E (out ++ [name])
                  (out ++ [PROCESSED_DIR self; name]) s1) as Hm.
    destruct (shutil_move E _ _ s1) as [[[]|e] s2]; simpl in *; lia.
  - rewrite upload_csv_file_eq.
    destruct (upload_call E self (out ++ [name]) name s) as [[r|e] s1];
      [|done].
    destruct (shutil_move E _ _ s1) as [[[]|e] s2] eqn:Hmove; [done|].
    simpl. intros [= ->]. by apply shutil_move_not_RetryError in Hmove.
  - intros f Hfile Hno.
    destruct (retrying_exhausted E self (out ++ [name]) name f 3 s Hfile Hno)
      as (s1 & Hrun & Hn & Hf & _ & Hm & _).
    exists s1. rewrite upload_csv_file_eq. unfold upload_call.
    unfold stop_after_attempt. by rewrite Hrun.
  - intros csv pre headers rows s0 Hcsv Hfile Hpre Hmove.
    destruct (process_and_upload_chunks_healthy E self csv pre headers rows
                s0 Hcsv Hfile Hpre Hmove) as (s' & Hrun & Hw).
    exists s'. split; [done|].
    by rewrite Hw, length_app, length_fmap.
Qed.

Lemma upload_attempts_bounded_witness :
  ∃ s1,
    upload_csv_file failing_env demo_uploader "assets.csv" ["data"] demo_state
    = (Ok tt,
       emit (EvLog (LogFailedAfterAttempts ["data"; "assets.csv"])) s1)
    ∧ n_upload s1 = 3%nat
    ∧ files s1 = files demo_state
    ∧ n_move s1 = 0%nat.
Proof.
  destruct (upload_attempts_bounded failing_env demo_uploader "assets.csv"
              ["data"] demo_state) as (_ & _ & Hexhausted & _).
  apply (Hexhausted [["id"; "name"]; ["1"; "ab"]]).
  - vm_compute. reflexivity.
  - intros k text Hk. simpl. discriminate.
Defined.

(** ** Relocation *)

Lemma working_path_ne_processed (out : path) (d name : string) :
  out ++ [name] ≠ out ++ [d; name].
Proof. intros H. by apply app_inv_head in H. Qed.

(** C6, as the code has it: with the chunk file in the run directory, the
    sub-directory [PROCESSED_DIR] present and the move not refused, the
    chunk file is relocated exactly when [upload_call] returned: after a
    success one move is made and the file is found under
    [PROCESSED_DIR] and no longer in the run directory; after exhaustion no
    move is made and the files are as before.  The sub-directory is made by
    [_prepare_output_directory], before anything is written or uploaded,
    and for an uploader that [__init__] built its name is ["uploaded"]. *)
Theorem relocated_iff_uploaded (E : Env) (self : CsvUploader)
    (name : string) (out : path) (f : list Row) (s : State) :
  files s !! (out ++ [name]) = Some f →
  out ++ [PROCESSED_DIR self] ∈ dirs s →
  move_fails E (n_move s) = false →
  ((∃ r, (upload_call E self (out ++ [name]) name s).1 = Ok r)
   ↔ files (upload_csv_file E self name out s).2 !! (out ++ [name]) = None
     ∧ files (upload_csv_file E self name out s).2
         !! (out ++ [PROCESSED_DIR self; name]) = Some f)
  ∧ ((∃ r, (upload_call E self (out ++ [name]) name s).1 = Ok r) →
     n_move (upload_csv_file E self name out s).2 = S (n_move s))
  ∧ ((upload_call E self (out ++ [name]) name s).1 = Raise RetryError →
     files (upload_csv_file E self name out s).2 = files s
     ∧ n_move (upload_csv_file E self name out s).2 = n_move s)
  ∧ (upload_csv_file E self name out s).1 = Ok tt
  ∧ (∀ csv s0,
       CSV_PATH self = Some csv →
       ∃ s1,
         _prepare_output_directory E self s0
         = (Ok (run_directory E csv, csv_stem csv), s1)
         ∧ run_directory E csv ++ [PROCESSED_DIR self] ∈ dirs s1
         ∧ n_upload s1 = n_upload s0
         ∧ trace s1 = trace s0)
  ∧ (∀ args s0 self' s1,
       __init__ E args s0 = (Ok self', s1) → PROCESSED_DIR self' = "uploaded").
Proof.
  intros Hfile Hproc Hmove.
  pose proof (upload_call_frame E self (out ++ [name]) name s)
    as (Hf & Hd & Hm & _).
  pose proof (retrying_result stop_after_attempt
    (upload_call_wrapped E self (out ++ [name]) name) s) as Hres.
  fold (upload_call E self (out ++ [name]) name) in Hres.
  rewrite upload_csv_file_eq.
  assert (Hinit : ∀ args s0 self' s1,
    __init__ E args s0 = (Ok self', s1) → PROCESSED_DIR self' = "uploaded").
  { intros args s0 self' s1. unfold __init__, _fill_username_password.
    unfold_monad. simpl.
    destruct (envQualysUsernamePropertyArg args) as [uvar|];
      [destruct (envQualysPasswordPropertyArg args) as [pvar|]|].
    - destruct (environ E !! uvar); [destruct (environ E !! pvar)|];
        try discriminate.
      destruct (_generate_jwt E _ _) as [[?|?] ?]; [|discriminate].
      by intros [= <- _].
    - destruct (_generate_jwt E _ _) as [[?|?] ?]; [|discriminate].
      by intros [= <- _].
    - destruct (_generate_jwt E _ _) as [[?|?] ?]; [|discriminate].
      by intros [= <- _]. }
  assert (Hprep : ∀ csv s0,
    CSV_PATH self = Some csv →
    ∃ s1,
      _prepare_output_directory E self s0
      = (Ok (run_directory E csv, csv_stem csv), s1)
      ∧ run_directory E csv ++ [PROCESSED_DIR self] ∈ dirs s1
      ∧ n_upload s1 = n_upload s0
      ∧ trace s1 = trace s0).
  { intros csv s0 Hcsv. eexists. split.
    - by apply prepare_output_directory_eq.
    - split; [apply makedirs_self|done]. }
  destruct (upload_call E self (out ++ [name]) name s) as [[r|e] s1];
    simpl in Hf, Hd, Hm, Hres |- *.
  - rewrite shutil_move_eq, Hm, Hmove, Hf, Hfile, dirname_processed, Hd.
    destruct (decide (out ++ [PROCESSED_DIR self] ∈ dirs s)) as [_|Hn];
      [|done].
    simpl.
    assert (Hgone :
      <[out ++ [PROCESSED_DIR self; name] := f]>
        (delete (out ++ [name]) (files s)) !! (out ++ [name]) = None).
    { rewrite lookup_insert_ne by (symmetry; apply working_path_ne_processed).
      apply lookup_delete_eq. }
    split_and!; try done.
    + split; [intros _; split; [done|apply lookup_insert_eq]|by exists r].
    + by rewrite Hm.
  - destruct Hres as [[a [=]]|[= ->]]. simpl.
    split_and!; try done.
    + split; [by intros [r [=]]|].
      intros [Hgone _]. rewrite Hf, Hfile in Hgone. done.
    + by intros [r [=]].
Qed.

Lemma relocated_iff_uploaded_witness :
  files
    (upload_csv_file demo_env demo_uploader "assets.csv" ["data"]
       (makedirs ["data"; "uploaded"] demo_state)).2
    !! ["data"; "uploaded"; "assets.csv"]
  = Some [["id"; "name"]; ["1"; "ab"]].
Proof.
  destruct (relocated_iff_uploaded demo_env demo_uploader "assets.csv"
              ["data"] [["id"; "name"]; ["1"; "ab"]]
              (makedirs ["data"; "uploaded"] demo_state))
    as ([Hmoved _] & _).
  - vm_compute. reflexivity.
  - vm_compute. reflexivity.
  - reflexivity.
  - apply Hmoved. eexists. vm_compute. reflexivity.
Defined.

(** C6, as the claim has it, fails on a run that uploads its one chunk at
    the first attempt: the chunk file is found under ["uploaded"], nothing
    is found under ["delivered"] and no such directory is made; and on a
    run whose uploads all fail the directory ["uploaded"] is there all the
    same, although nothing was relocated. *)
Lemma delivered_area_counterexample :
  let s' := (process_and_upload_chunks demo_env demo_uploader demo_state).2 in
  let s'' :=
    (process_and_upload_chunks failing_env demo_uploader demo_state).2 in
  files s' !! ["data"; "assets_20240101_000000"; "delivered"; "assets_1.csv"]
  = None
  ∧ files s' !! ["data"; "assets_20240101_000000"; "uploaded"; "assets_1.csv"]
    = Some [["id"; "name"]; ["1"; "ab"]; ["1"; "ab"]]
  ∧ bool_decide (["data"; "assets_20240101_000000"; "delivered"] ∈ dirs s')
    = false
  ∧ n_move s'' = 0%nat
  ∧ bool_decide (["data"; "assets_20240101_000000"; "uploaded"] ∈ dirs s'')
    = true.
Proof. vm_compute. repeat split; reflexivity. Qed.

(** ** A run that returns completed its moves *)

Section Returns.

Context (R : relation State) `{!Reflexive R, !Transitive R}.

Lemma returns_ret {A} (a : A) : returns_within R (ret a).
Proof. by intros s a' s' [= _ <-]. Qed.

Lemma returns_raise {A} (e : Exn) : returns_within R (@raise A e).
Proof. by intros s a s' [=]. Qed.

Lemma returns_get {A} (f : State → A) : returns_within R (get f).
Proof. by intros s a s' [= _ <-]. Qed.

Lemma returns_modify (f : State → State) :
  (∀ s, R s (f s)) → returns_within R (modify f).
Proof. intros H s [] s' [= <-]. apply H. Qed.

Lemma returns_bind {A B} (c : M A) (k : A → M B) :
  returns_within R c → (∀ a, returns_within R (k a)) →
  returns_within R (c ≫= k).
Proof.
  intros Hc Hk s b s'. unfold mbind, M_bind, bind.
  destruct (c s) as [[a|e] s1] eqn:Hrun; [|done].
  intros Hrest. etrans; [by eapply Hc|by eapply Hk].
Qed.

Lemma returns_preserves {A} (c : M A) :
  preserves R c → returns_within R c.
Proof. intros Hc s a s' Hrun. specialize (Hc s). by rewrite Hrun in Hc. Qed.

End Returns.

#[export] Instance moves_completed_refl : Reflexive moves_completed.
Proof. intros s. exists []. simpl. split; [by rewrite app_nil_r|lia]. Qed.

#[export] Instance moves_completed_trans : Transitive moves_completed.
Proof.
  intros s1 s2 s3 (tr1 & Ht1 & Hn1) (tr2 & Ht2 & Hn2).
  exists (tr1 ++ tr2). split; [by rewrite Ht2, Ht1, app_assoc|].
  unfold moved in *. rewrite omap_app, length_app. lia.
Qed.

Lemma moves_completed_emit (e : Event) (s : State) :
  match e with EvMove _ _ => False | _ => True end →
  moves_completed s (emit e s).
Proof.
  intros He. exists [e]. split; [done|]. destruct e; simpl; try lia.
Qed.

Lemma moves_completed_same (s s' : State) :
  trace s' = trace s → n_move s' = n_move s → moves_completed s s'.
Proof.
  intros Ht Hn. exists []. simpl. rewrite app_nil_r. split; [done|lia].
Qed.

Lemma upload_call_moves_completed (E : Env) (self : CsvUploader) (p : path)
    (name : string) :
  preserves moves_completed (upload_call E self p name).
Proof.
  unfold upload_call, upload_call_wrapped, _generate_jwt. preserves_steps;
    intros s;
    first [by apply moves_completed_emit|by apply moves_completed_same].
Qed.

Lemma upload_csv_file_moves_completed (E : Env) (self : CsvUploader)
    (name : string) (out : path) :
  returns_within moves_completed (upload_csv_file E self name out).
Proof.
  intros s a s'. rewrite upload_csv_file_eq.
  pose proof (upload_call_moves_completed E self (out ++ [name]) name s)
    as Hup.
  destruct (upload_call E self (out ++ [name]) name s) as [[r|e] s1];
    simpl in Hup.
  - rewrite shutil_move_eq. destruct (move_fails E (n_move s1)); [done|].
    destruct (files s1 !! (out ++ [name])) as [f|]; [|done].
    destruct (decide (_ ∈ dirs s1)); [|done].
    intros [= <- <-]. etrans; [exact Hup|].
    eexists [_; _]. simpl. rewrite <- app_assoc. split; [done|simpl; lia].
  - intros [= <- <-]. etrans; [exact Hup|]. by apply moves_completed_emit.
Qed.

Lemma write_chunk_moves_completed (self : CsvUploader) (rows : list Row)
    (index : Z) (headers : Row) (filename : string) (out : path) :
  preserves moves_completed
    (_write_chunk self rows index headers filename out).
Proof.
  unfold _write_chunk. preserves_steps; intros s;
    first [by apply moves_completed_emit|by apply moves_completed_same].
Qed.

Lemma for_row_moves_completed (E : Env) (self : CsvUploader) (headers : Row)
    (filename : string) (out : path) (b : Buffer) (row : Row) :
  returns_within moves_completed
    (for_row E self headers filename out b row).
Proof.
  unfold for_row.
  apply returns_bind; [apply _| |intros b'; apply returns_ret; apply _].
  destruct (_ >? _); [|apply returns_ret; apply _].
  apply returns_bind; [apply _| |intros name].
  - apply returns_preserves, write_chunk_moves_completed.
  - apply returns_bind; [apply _| |intros _; apply returns_ret; apply _].
    apply upload_csv_file_moves_completed.
Qed.

Lemma for_rows_moves_completed (E : Env) (self : CsvUploader)
    (headers : Row) (filename : string) (out : path) (rows : list Row)
    (b : Buffer) :
  returns_within moves_completed
    (for_rows E self headers filename out rows b).
Proof.
  revert b. induction rows as [|row rest IH]; intros b; simpl.
  - apply returns_ret; apply _.
  - apply returns_bind; [apply _|apply for_row_moves_completed|apply IH].
Qed.

(** A run that returns made no call of [shutil.move] that failed. *)
Lemma process_and_upload_chunks_moves_completed (E : Env)
    (self : CsvUploader) :
  returns_within moves_completed (process_and_upload_chunks E self).
Proof.
  unfold process_and_upload_chunks.
  apply returns_bind; [apply _| |intros [out fn]].
  { apply returns_preserves. unfold _prepare_output_directory.
    preserves_steps. intros s. by apply moves_completed_same. }
  apply returns_bind; [apply _|apply returns_get; apply _|intros fs].
  destruct (CSV_PATH self ≫= _); [|apply returns_raise].
  apply returns_bind; [apply _| |intros reader].
  { apply returns_preserves. apply skip_rows_preserves; apply _. }
  destruct reader as [|headers rows]; [apply returns_raise|].
  apply returns_bind; [apply _|apply for_rows_moves_completed|intros b].
  destruct (chunk b); [apply returns_ret; apply _|].
  apply returns_bind; [apply _| |intros name].
  - apply returns_preserves, write_chunk_moves_completed.
  - apply upload_csv_file_moves_completed.
Qed.

(** C9: when the upload returned and the move raises, the exception is not
    [RetryError], [upload_csv_file] ends with that exception, and so does
    the loop over the rows in the turn that sealed the chunk: the rows that
    follow are not processed.  A run that returns has therefore completed
    every move that it started. *)
Theorem relocation_failure_propagates (E : Env) (self : CsvUploader)
    (name : string) (out : path) (s s1 s2 : State) (r : HttpResult)
    (e : Exn) :
  upload_call E self (out ++ [name]) name s = (Ok r, s1) →
  shutil_move E (out ++ [name]) (out ++ [PROCESSED_DIR self; name]) s1
  = (Raise e, s2) →
  e ≠ RetryError
  ∧ upload_csv_file E self name out s = (Raise e, s2)
  ∧ (∀ headers filename b row rest s0,
       current_chunk_size b + row_size row > MAX_CHUNK_SIZE self →
       _write_chunk self (chunk b ++ [row]) (chunk_index b + 1) headers
         filename out s0 = (Ok name, s) →
       for_rows E self headers filename out (row :: rest) b s0
       = (Raise e, s2))
  ∧ returns_within moves_completed (process_and_upload_chunks E self).
Proof.
  intros Hup Hmove.
  assert (Hfile : upload_csv_file E self name out s = (Raise e, s2))
    by by rewrite upload_csv_file_eq, Hup, Hmove.
  split; [by apply shutil_move_not_RetryError in Hmove|]. split; [done|].
  split; [|apply process_and_upload_chunks_moves_completed].
  intros headers filename b row rest s0 Hover Hwrite. simpl.
  unfold for_row. apply Z.gt_lt, Z.gtb_lt in Hover. rewrite Hover.
  unfold mbind, M_bind, bind. by rewrite Hwrite, Hfile.
Qed.

Lemma relocation_failure_propagates_witness :
  upload_csv_file refusing_env demo_uploader "assets.csv" ["data"] demo_state
  = (Raise (OSError ["data"; "uploaded"; "assets.csv"]),
     tick_move
       (upload_call refusing_env demo_uploader ["data"; "assets.csv"]
          "assets.csv" demo_state).2).
Proof.
  apply (relocation_failure_propagates refusing_env demo_uploader
           "assets.csv" ["data"] demo_state
           (upload_call refusing_env demo_uploader ["data"; "assets.csv"]
              "assets.csv" demo_state).2
           (tick_move
              (upload_call refusing_env demo_uploader ["data"; "assets.csv"]
                 "assets.csv" demo_state).2)
           (Response 200 "ok")
           (OSError ["data"; "uploaded"; "assets.csv"])).
  - vm_compute. reflexivity.
  - vm_compute. reflexivity.
Defined.

(** ** What the chunks hold *)

Lemma sealed_in_loop_rows (max : Z) (rows : list Row) (b : Buffer) :
  concat (snd <$> sealed_in_loop max rows b)
  ++ chunk (buffer_after max rows b)
  = chunk b ++ (rows ≫= twice).
Proof.
  revert b. induction rows as [|row rest IH]; intros b; simpl.
  - by rewrite app_nil_r.
  - rewrite fmap_app, concat_app, <- app_assoc, IH.
    unfold sealed_by, next_buffer.
    destruct (current_chunk_size b + row_size row >? max); simpl.
    + by rewrite app_nil_r, <- !app_assoc.
    + by rewrite <- !app_assoc.
Qed.

(** Read in the order of sealing, the chunks hold every data row of the
    source twice. *)
Lemma chunks_of_rows (max : Z) (rows : list Row) :
  concat (snd <$> chunks_of max rows) = rows ≫= twice.
Proof.
  unfold chunks_of. rewrite fmap_app, concat_app.
  pose proof (sealed_in_loop_rows max rows empty_buffer) as H. simpl in H.
  rewrite <- H. f_equal. unfold sealed_at_end.
  destruct (chunk (buffer_after max rows empty_buffer)); simpl; [done|].
  by rewrite app_nil_r.
Qed.

Lemma sealed_in_loop_index (max : Z) (rows : list Row) (b : Buffer) :
  fst <$> sealed_in_loop max rows b
  = (λ k, chunk_index b + 1 + Z.of_nat k)
    <$> seq 0 (length (sealed_in_loop max rows b))
  ∧ chunk_index (buffer_after max rows b)
    = chunk_index b + Z.of_nat (length (sealed_in_loop max rows b)).
Proof.
  revert b. induction rows as [|row rest IH]; intros b; simpl.
  - split; [done|lia].
  - destruct (IH (next_buffer max b row)) as [IH1 IH2].
    rewrite fmap_app, length_app, IH1, IH2.
    unfold sealed_by, next_buffer.
    destruct (current_chunk_size b + row_size row >? max); simpl.
    + split; [|lia]. f_equal; [lia|].
      change (list_fmap nat Z ?g ?l) with (g <$> l).
      rewrite <- fmap_S_seq, <- list_fmap_compose.
      apply list_fmap_ext. intros _ k _. simpl. lia.
    + split; [done|lia].
Qed.

(** The chunks are numbered 1, 2, ... in the order of sealing. *)
Lemma chunks_of_index (max : Z) (rows : list Row) :
  fst <$> chunks_of max rows
  = (λ k, 1 + Z.of_nat k) <$> seq 0 (length (chunks_of max rows)).
Proof.
  unfold chunks_of.
  destruct (sealed_in_loop_index max rows empty_buffer) as [H1 H2].
  rewrite fmap_app, length_app, H1. simpl chunk_index. unfold sealed_at_end.
  destruct (chunk (buffer_after max rows empty_buffer)); simpl.
  - by rewrite !app_nil_r, Nat.add_0_r.
  - rewrite H2. simpl chunk_index.
    rewrite Nat.add_1_r, seq_S, fmap_app. simpl. do 2 f_equal. lia.
Qed.

(** On a run as in [process_and_upload_chunks_healthy], started from an
    empty history, the chunk files hold every data row of the source
    twice. *)
Lemma run_writes_rows_twice (E : Env) (self : CsvUploader) (csv : CsvPath)
    (pre : list Row) (headers : Row) (rows : list Row) (s : State) :
  CSV_PATH self = Some csv →
  files s !! csv_path_key csv = Some (pre ++ headers :: rows) →
  length pre = Z.to_nat (HEADER self - 1) →
  (∀ k, move_fails E k = false) →
  trace s = [] →
  data_rows_written (trace (process_and_upload_chunks E self s).2)
  = rows ≫= twice.
Proof.
  intros Hcsv Hfile Hpre Hmove Hempty.
  destruct (process_and_upload_chunks_healthy E self csv pre headers rows s
              Hcsv Hfile Hpre Hmove) as (s' & -> & Hw).
  unfold data_rows_written. simpl. rewrite Hw, Hempty. simpl.
  rewrite <- list_fmap_compose.
  rewrite <- (chunks_of_rows (MAX_CHUNK_SIZE self) rows).
  f_equal.
Qed.

(** *** Rows of 5 MiB *)

Lemma length_repeat_char (c : Ascii.ascii) (n : nat) :
  String.length (repeat_char c n) = n.
Proof. induction n as [|n IH]; simpl; [done|by rewrite IH]. Qed.

Lemma string_length_app (s1 s2 : string) :
  String.length (s1 +:+ s2) = (String.length s1 + String.length s2)%nat.
Proof. induction s1 as [|a s1 IH]; simpl; [done|by rewrite IH]. Qed.

(** The length of [sep.join] of a field repeated [n + 1] times. *)
Lemma length_concat_repeat (sep f : string) (n : nat) :
  String.length (String.concat sep (repeat f (S n)))
  = (S n * String.length f + n * String.length sep)%nat.
Proof.
  induction n as [|n IH]; [simpl; lia|].
  change (String.concat sep (repeat f (S (S n))))
    with (f +:+ sep +:+ String.concat sep (repeat f (S n))).
  rewrite !string_length_app, IH. lia.
Qed.

Lemma row_size_big_row (c : Ascii.ascii) :
  row_size (big_row c) = 5242880.
Proof.
  unfold big_row, row_size.
  rewrite (length_concat_repeat "," _ 39), length_repeat_char.
  change (String.length ",") with 1%nat. lia.
Qed.

(** Every field of such a row is one that [csv.reader] accepts. *)
Lemma big_row_readable (c : Ascii.ascii) :
  Forall (λ field, Z.of_nat (String.length field) ≤ field_size_limit)
    (big_row c).
Proof.
  unfold big_row. apply Forall_forall. intros field Hin.
  apply list_elem_of_In, repeat_spec in Hin as ->.
  rewrite length_repeat_char.
  unfold field_size_limit. lia.
Qed.

Lemma chunks_of_two (max : Z) (r1 r2 : Row) :
  row_size r1 ≤ max →
  row_size r1 + row_size r2 > max →
  chunks_of max [r1; r2] = [(1, [r1; r1; r2]); (2, [r2])].
Proof.
  intros H1 H2. unfold chunks_of, sealed_at_end. simpl.
  unfold sealed_by, next_buffer. simpl.
  assert (Hle : (row_size r1 >? max) = false)
    by (rewrite Z.gtb_ltb; apply Z.ltb_ge; lia).
  assert (Hgt : (row_size r1 + row_size r2 >? max) = true)
    by (apply Z.gtb_lt; lia).
  rewrite !Z.add_0_l, Hle. simpl. by rewrite Hgt.
Qed.

(** The demonstration uploader is the one that [__init__] builds from the
    demonstration arguments. *)
Lemma init_demo_uploader (s : State) :
  (__init__ demo_env demo_args s).1 = Ok demo_uploader.
Proof. reflexivity. Qed.

(** C1 fails on a source with a header row and one data row: the one chunk
    file holds the data row twice, so the data rows read back from the
    chunk files are not the data rows of the source. *)
Theorem one_row_written_twice :
  let s' := (process_and_upload_chunks demo_env demo_uploader demo_state).2 in
  files demo_state !! ["data"; "assets.csv"]
  = Some [["id"; "name"]; ["1"; "ab"]]
  ∧ writes (trace s')
    = [(["data"; "assets_20240101_000000"; "assets_1.csv"],
        [["id"; "name"]; ["1"; "ab"]; ["1"; "ab"]])]
  ∧ data_rows_written (trace s') = [["1"; "ab"]; ["1"; "ab"]]
  ∧ data_rows_written (trace s') ≠ [["1"; "ab"]].
Proof. vm_compute. repeat split; try reflexivity. discriminate. Qed.

Lemma big_run :
  ∃ s',
    process_and_upload_chunks demo_env demo_uploader big_state = (Ok tt, s')
    ∧ writes (trace s')
      = [(["data"; "assets_20240101_000000"; "assets_1.csv"],
          [["id"; "name"]; big_row "a"; big_row "a"; big_row "b"]);
         (["data"; "assets_20240101_000000"; "assets_2.csv"],
          [["id"; "name"]; big_row "b"])].
Proof.
  destruct (process_and_upload_chunks_healthy demo_env demo_uploader
              {| csv_directory := ["data"]; csv_stem := "assets";
                 csv_ext := ".csv" |}
              [] ["id"; "name"] [big_row "a"; big_row "b"] big_state)
    as (s' & Hrun & Hw).
  - reflexivity.
  - apply lookup_singleton_eq.
  - reflexivity.
  - reflexivity.
  - exists s'. split; [exact Hrun|]. rewrite Hw.
    assert (Hc : chunks_of (MAX_CHUNK_SIZE demo_uploader)
                   [big_row "a"; big_row "b"]
                 = [(1, [big_row "a"; big_row "a";
                         big_row "b"]);
                    (2, [big_row "b"])]).
    { apply chunks_of_two.
      - rewrite row_size_big_row. cbv. discriminate.
      - rewrite !row_size_big_row. reflexivity. }
    rewrite Hc. reflexivity.
Qed.

Lemma payload_three (r1 r2 r3 : Row) :
  payload [r1; r2; r3] = row_size r1 + (row_size r2 + (row_size r3 + 0)).
Proof. reflexivity. Qed.

Lemma next_buffer_first (max : Z) (row : Row) :
  row_size row ≤ max →
  next_buffer max empty_buffer row
  = {| chunk := [row; row]; current_chunk_size := row_size row;
       chunk_index := 0 |}.
Proof.
  intros Hle. unfold next_buffer. simpl. rewrite Z.add_0_l.
  assert (Hno : (row_size row >? max) = false)
    by (rewrite Z.gtb_ltb; apply Z.ltb_ge; lia).
  by rewrite Hno.
Qed.

(** C2 fails on a source that [csv.reader] reads, with a header row and
    two data rows of 40 fields of 131071 bytes each: the first chunk is
    sealed with three rows, none of which exceeds the ceiling alone, and
    its payload is 15 MiB. *)
Theorem sealed_chunk_over_ceiling :
  ∃ s',
    files big_state !! ["data"; "assets.csv"]
    = Some [["id"; "name"]; big_row "a"; big_row "b"]
    ∧ Forall (Forall (λ field,
                Z.of_nat (String.length field) ≤ field_size_limit))
        [["id"; "name"]; big_row "a"; big_row "b"]
    ∧ process_and_upload_chunks demo_env demo_uploader big_state = (Ok tt, s')
    ∧ writes (trace s') !! 0%nat
      = Some (["data"; "assets_20240101_000000"; "assets_1.csv"],
              [["id"; "name"]; big_row "a"; big_row "a"; big_row "b"])
    ∧ payload [big_row "a"; big_row "a"; big_row "b"] = 15728640
    ∧ payload [big_row "a"; big_row "a"; big_row "b"]
      > MAX_CHUNK_SIZE demo_uploader
    ∧ MAX_CHUNK_SIZE demo_uploader = 9437184
    ∧ row_size (big_row "a") = 5242880
    ∧ row_size (big_row "b") = 5242880.
Proof.
  destruct big_run as (s' & Hrun & Hw). exists s'.
  split; [apply lookup_singleton_eq|]. split.
  { apply Forall_cons_2.
    - apply Forall_cons_2; [by vm_compute|].
      apply Forall_cons_2; [by vm_compute|apply Forall_nil_2].
    - apply Forall_cons_2; [apply big_row_readable|].
      apply Forall_cons_2; [apply big_row_readable|apply Forall_nil_2]. }
  split; [exact Hrun|]. split; [rewrite Hw; reflexivity|].
  rewrite payload_three, !row_size_big_row. repeat split; reflexivity.
Qed.

(** C3 fails: one turn of the loop on an empty buffer leaves the row in the
    buffer twice; and on the source with two rows of 5 MiB, a source that
    [csv.reader] reads, the chunk that is sealed when the second row
    overflows the counter ends with that second row, which is also the one
    row of the chunk that follows. *)
Theorem row_appended_twice_and_sealed :
  (for_rows demo_env demo_uploader ["id"; "name"] "assets" ["out"]
     [["1"; "ab"]] empty_buffer demo_state).1
  = Ok {| chunk := [["1"; "ab"]; ["1"; "ab"]];
          current_chunk_size := 5;
          chunk_index := 0 |}
  ∧ ∃ s',
      process_and_upload_chunks demo_env demo_uploader big_state = (Ok tt, s')
      ∧ snd <$> writes (trace s')
        = [[["id"; "name"]; big_row "a"; big_row "a"; big_row "b"];
           [["id"; "name"]; big_row "b"]]
      ∧ current_chunk_size (next_buffer (MAX_CHUNK_SIZE demo_uploader)
                              empty_buffer (big_row "a"))
        + row_size (big_row "b")
        > MAX_CHUNK_SIZE demo_uploader.
Proof.
  split; [reflexivity|].
  destruct big_run as (s' & Hrun & Hw). exists s'.
  split; [exact Hrun|]. split; [rewrite Hw; reflexivity|].
  assert (Hb := next_buffer_first (MAX_CHUNK_SIZE demo_uploader)
                  (big_row "a")).
  rewrite Hb.
  - change (row_size (big_row "a") + row_size (big_row "b")
            > MAX_CHUNK_SIZE demo_uploader).
    rewrite !row_size_big_row. reflexivity.
  - rewrite row_size_big_row. cbv. discriminate.
Qed.

(** * Further properties of the pipeline *)

(** ** Relations that hold across the sealing of a chunk *)

Lemma preserves_bind_assoc (R : relation State) `{!Transitive R} {A B C}
    (w : M A) (u : A → M B) (k : B → M C) :
  preserves R (w ≫= u) → (∀ b, preserves R (k b)) →
  preserves R (w ≫= λ a, u a ≫= k).
Proof.
  intros Hwu Hk s. specialize (Hwu s). unfold mbind, M_bind, bind in *.
  destruct (w s) as [[a|e] s1]; [|done].
  destruct (u a s1) as [[b|e] s2]; [|done].
  etrans; [exact Hwu|apply Hk].
Qed.

Section SealedRun.

Context (R : relation State) `{!Reflexive R, !Transitive R}.
Variable E : Env.
Variable out : path.
Hypothesis R_seal :
  ∀ self rows index headers filename,
    preserves R
      (_write_chunk self rows index headers filename out
         ≫= λ name, upload_csv_file E self name out).

Lemma for_row_sealed (self : CsvUploader) (headers : Row)
    (filename : string) (b : Buffer) (row : Row) :
  preserves R (for_row E self headers filename out b row).
Proof.
  unfold for_row.
  apply preserves_bind; [apply _| |intros b'; apply preserves_ret; apply _].
  destruct (_ >? _); [|apply preserves_ret; apply _].
  apply (preserves_bind_assoc R); [apply R_seal|].
  intros []. apply preserves_ret; apply _.
Qed.

Lemma for_rows_sealed (self : CsvUploader) (headers : Row)
    (filename : string) (rows : list Row) (b : Buffer) :
  preserves R (for_rows E self headers filename out rows b).
Proof.
  revert b. induction rows as [|row rest IH]; intros b; simpl.
  - apply preserves_ret; apply _.
  - apply preserves_bind; [apply _|apply for_row_sealed|apply IH].
Qed.

(** From the state in which the directories of the run are made, the
    relation holds up to the end of the run. *)
Lemma process_and_upload_chunks_sealed (self : CsvUploader) (csv : CsvPath)
    (s : State) :
  CSV_PATH self = Some csv →
  out = run_directory E csv →
  R (makedirs (out ++ [PROCESSED_DIR self]) s)
    (process_and_upload_chunks E self s).2.
Proof.
  intros Hcsv Hout. unfold process_and_upload_chunks.
  unfold mbind at 1, M_bind at 1, bind at 1.
  rewrite (prepare_output_directory_eq E self csv s Hcsv), <- Hout.
  generalize (makedirs (out ++ [PROCESSED_DIR self]) s). clear s.
  change (preserves R
    (fs ← get files;
     match CSV_PATH self ≫= (λ csv, fs !! csv_path_key csv) with
     | None =>
         raise (FileNotFoundError
                  (from_option csv_path_key [] (CSV_PATH self)))
     | Some csv_file_reader =>
         csv_file_reader ←
           skip_rows (Z.to_nat (HEADER self - 1)) csv_file_reader;
         match csv_file_reader with
         | [] => raise StopIteration
         | headers :: rows =>
             b ← for_rows E self headers (csv_stem csv) out rows
                   {| chunk := []; current_chunk_size := 0;
                      chunk_index := 0 |};
             match chunk b with
             | [] => ret tt
             | _ :: _ =>
                 let index := chunk_index b + 1 in
                 chunk_filename ←
                   _write_chunk self (chunk b) index headers (csv_stem csv)
                     out;
                 upload_csv_file E self chunk_filename out
             end
         end
     end)).
  apply preserves_bind; [apply _|apply preserves_get; apply _|intros fs].
  destruct (CSV_PATH self ≫= _); [|apply preserves_raise; apply _].
  apply preserves_bind;
    [apply _|apply skip_rows_preserves; apply _|intros reader].
  destruct reader as [|headers rows]; [apply preserves_raise; apply _|].
  apply preserves_bind; [apply _|apply for_rows_sealed|intros b].
  destruct (chunk b); [apply preserves_ret; apply _|]. apply R_seal.
Qed.

End SealedRun.

(** ** One authentication for each 401 *)

#[export] Instance reauth_counted_refl : Reflexive reauth_counted.
Proof. intros s. exists []. simpl. split; [by rewrite app_nil_r|lia]. Qed.

#[export] Instance reauth_counted_trans : Transitive reauth_counted.
Proof.
  intros s1 s2 s3 (tr1 & Ht1 & Hn1) (tr2 & Ht2 & Hn2).
  exists (tr1 ++ tr2). split; [by rewrite Ht2, Ht1, app_assoc|].
  unfold answered_401 in *. rewrite List.filter_app, length_app. lia.
Qed.

Lemma reauth_counted_emit (e : Event) (s : State) :
  is_401 e = false → reauth_counted s (emit e s).
Proof.
  intros He. exists [e]. split; [done|].
  unfold answered_401. simpl. rewrite He. simpl. lia.
Qed.

Lemma reauth_counted_same (s s' : State) :
  trace s' = trace s → n_auth s' = n_auth s → reauth_counted s s'.
Proof.
  intros Ht Hn. exists []. simpl. rewrite app_nil_r. split; [done|lia].
Qed.

Lemma upload_call_wrapped_reauth_counted (E : Env) (self : CsvUploader)
    (p : path) (name : string) :
  preserves reauth_counted (upload_call_wrapped E self p name).
Proof.
  intros s. rewrite upload_call_wrapped_eq. unfold sent.
  destruct (files s !! p) as [f|]; [|reflexivity]. simpl.
  destruct (upload_oracle E (n_upload s)) as [|code text] eqn:Hup.
  { eexists [_; _]. simpl. rewrite <- app_assoc. split; [done|].
    unfold answered_401. simpl. rewrite ?Hup. simpl. lia. }
  destruct (code =? 200) eqn:H200.
  { eexists [_; _]. simpl. rewrite <- app_assoc. split; [done|].
    unfold answered_401. simpl. rewrite ?Hup. simpl.
    apply Z.eqb_eq in H200 as ->. simpl. lia. }
  destruct (code =? 401) eqn:H401.
  - rewrite generate_jwt_eq. simpl.
    destruct (auth_oracle E (n_auth s)) as [|acode t];
      [|destruct (raise_for_status acode)];
      (eexists [_; _; _]; simpl; rewrite <- !app_assoc; split; [done|];
       unfold answered_401; simpl; rewrite ?Hup; simpl; rewrite H401;
       simpl; lia).
  - eexists [_; _]. simpl. rewrite <- app_assoc. split; [done|].
    unfold answered_401. simpl. rewrite ?Hup. simpl. rewrite H401.
    simpl. lia.
Qed.

(** Over a whole run, whatever its outcome, the number of requests to the
    auth endpoint is the number of uploads that were answered with 401. *)
Theorem run_reauthenticates_once_per_401 (E : Env) (self : CsvUploader)
    (s : State) :
  ∃ tr,
    trace (process_and_upload_chunks E self s).2 = trace s ++ tr
    ∧ n_auth (process_and_upload_chunks E self s).2
      = (n_auth s + length (answered_401 tr))%nat.
Proof.
  apply (process_and_upload_chunks_preserves reauth_counted); try apply _;
    try (intros; by apply reauth_counted_emit);
    try (intros; by apply reauth_counted_same).
  intros self' p name. apply preserves_retrying; [apply _..|].
  apply upload_call_wrapped_reauth_counted.
Qed.

(** ** The upload requests of a run *)

Lemma budgeted_app (out : path) (st : option path * nat)
    (tr1 tr2 : list Event) :
  budgeted out st (tr1 ++ tr2)
  ↔ budgeted out st tr1 ∧ budgeted out (fold_left budget_step tr1 st) tr2.
Proof.
  revert st. induction tr1 as [|e tr1 IH]; intros st; simpl; [tauto|].
  rewrite IH. tauto.
Qed.

Lemma budgeted_quiet (out : path) (st : option path * nat)
    (tr : list Event) :
  Forall (λ e, match e with EvUpload _ _ _ _ _ => False | _ => True end) tr →
  budgeted out st tr.
Proof.
  intros Hq. revert st. induction Hq as [|e tr He _ IH]; intros st; [done|].
  simpl. split; [by destruct e|apply IH].
Qed.

#[export] Instance requests_budgeted_refl (out : path) :
  Reflexive (requests_budgeted out).
Proof. intros s. exists []. by rewrite app_nil_r. Qed.

#[export] Instance requests_budgeted_trans (out : path) :
  Transitive (requests_budgeted out).
Proof.
  intros s1 s2 s3 (tr1 & Ht1 & H1) (tr2 & Ht2 & H2).
  exists (tr1 ++ tr2). split; [by rewrite Ht2, Ht1, app_assoc|].
  intros st. apply budgeted_app. split; [apply H1|apply H2].
Qed.

(** One attempt for a chunk file for which a request is left: the attempt
    keeps to the budget and uses up one request, or none when the file is
    missing. *)
Lemma upload_call_wrapped_budgeted (E : Env) (self : CsvUploader)
    (out : path) (name : string) (left : nat) (s : State) :
  ∃ tr,
    trace (upload_call_wrapped E self (out ++ [name]) name s).2
    = trace s ++ tr
    ∧ budgeted out (Some (out ++ [name]), S left) tr
    ∧ (fold_left budget_step tr (Some (out ++ [name]), S left)
       = (Some (out ++ [name]), S left)
       ∨ fold_left budget_step tr (Some (out ++ [name]), S left)
         = (Some (out ++ [name]), left)).
Proof.
  rewrite upload_call_wrapped_eq. unfold sent.
  destruct (files s !! (out ++ [name])) as [f|].
  2: { exists []. simpl. rewrite app_nil_r. split; [done|]. by split; [|left]. }
  simpl.
  destruct (upload_oracle E (n_upload s)) as [|code text];
    [|destruct (code =? 200); [|destruct (code =? 401)]];
    try (eexists [_; _]; simpl; rewrite <- app_assoc; split; [done|];
         split; [|by right]; split; [split; [done|lia]|done]).
  rewrite generate_jwt_eq. simpl.
  destruct (auth_oracle E (n_auth s)) as [|acode t];
    [|destruct (raise_for_status acode)];
    (eexists [_; _; _]; simpl; rewrite <- !app_assoc; split; [done|];
     split; [|by right]; split; [split; [done|lia]|done]).
Qed.

(** The attempts of [upload_call] keep to the budget that is left for the
    chunk file. *)
Lemma retrying_budgeted (E : Env) (self : CsvUploader) (out : path)
    (name : string) (n left : nat) (s : State) :
  (n ≤ left)%nat →
  ∃ tr,
    trace (retrying n (upload_call_wrapped E self (out ++ [name]) name) s).2
    = trace s ++ tr
    ∧ budgeted out (Some (out ++ [name]), left) tr.
Proof.
  revert left s. induction n as [|n IH]; intros left s Hn; simpl.
  { exists []. by rewrite app_nil_r. }
  destruct left as [|left]; [lia|].
  destruct (upload_call_wrapped_budgeted E self out name left s)
    as (tr1 & Ht1 & Hb1 & Hst).
  unfold catch.
  destruct (upload_call_wrapped E self (out ++ [name]) name s)
    as [[r|e] s1]; simpl in Ht1; [by exists tr1|].
  unfold retry_if_exception_type_Exception.
  destruct Hst as [Hst|Hst].
  - destruct (IH (S left) s1) as (tr2 & Ht2 & Hb2); [lia|].
    exists (tr1 ++ tr2). split; [by rewrite Ht2, Ht1, app_assoc|].
    apply budgeted_app. by rewrite Hst.
  - destruct (IH left s1) as (tr2 & Ht2 & Hb2); [lia|].
    exists (tr1 ++ tr2). split; [by rewrite Ht2, Ht1, app_assoc|].
    apply budgeted_app. by rewrite Hst.
Qed.

Lemma upload_csv_file_budgeted (E : Env) (self : CsvUploader)
    (name : string) (out : path) (s : State) :
  ∃ tr,
    trace (upload_csv_file E self name out s).2 = trace s ++ tr
    ∧ budgeted out (Some (out ++ [name]), stop_after_attempt) tr.
Proof.
  rewrite upload_csv_file_eq.
  destruct (retrying_budgeted E self out name stop_after_attempt
              stop_after_attempt s) as (tr & Htr & Hb); [lia|].
  fold (upload_call E self (out ++ [name]) name) in Htr.
  destruct (upload_call E self (out ++ [name]) name s) as [[r|e] s1];
    simpl in Htr.
  - rewrite shutil_move_eq. destruct (move_fails E (n_move s1)).
    { exists tr. by split. }
    destruct (files s1 !! (out ++ [name])) as [f|]; [|exists tr; by split].
    destruct (decide (_ ∈ dirs s1)); [|exists tr; by split].
    exists (tr ++ [EvMove (out ++ [name])
                     (out ++ [PROCESSED_DIR self; name]);
                   EvLog (LogMoved name (out ++ [PROCESSED_DIR self; name]))]).
    simpl. rewrite Htr, <- !app_assoc. split; [done|].
    apply budgeted_app. split; [done|].
    apply budgeted_quiet. by repeat constructor.
  - exists (tr ++ [EvLog (LogFailedAfterAttempts (out ++ [name]))]).
    simpl. rewrite Htr, <- app_assoc. split; [done|].
    apply budgeted_app. split; [done|].
    apply budgeted_quiet. by repeat constructor.
Qed.

Lemma seal_requests_budgeted (E : Env) (out : path) (self : CsvUploader)
    (rows : list Row) (index : Z) (headers : Row) (filename : string) :
  preserves (requests_budgeted out)
    (_write_chunk self rows index headers filename out
       ≫= λ name, upload_csv_file E self name out).
Proof.
  intros s. unfold mbind, M_bind, bind. rewrite write_chunk_eq.
  destruct (decide (out ∈ dirs s)); [|reflexivity]. cbv beta iota.
  set (name := chunk_name filename index).
  set (s1 := written rows index headers filename out s).
  assert (Ht1 : trace s1
                = trace s
                  ++ [EvWrite (out ++ [name]) (headers :: rows);
                      EvLog (LogWritten name (length rows)
                               (out ++ [name]))]).
  { unfold s1, written. simpl. by rewrite <- app_assoc. }
  clearbody s1.
  destruct (upload_csv_file_budgeted E self name out s1) as (tr & Htr & Hb).
  eexists. split; [by rewrite Htr, Ht1, <- app_assoc|].
  intros st. simpl. by repeat split.
Qed.

(** Over a whole run, whatever its outcome, every upload request is for
    the chunk file that the run wrote last, and at most three requests
    follow a write before the next write: no chunk file of the run gets
    more than three requests, and no request is sent before the first
    chunk file is written. *)
Theorem run_upload_budget (E : Env) (self : CsvUploader) (csv : CsvPath)
    (s : State) :
  CSV_PATH self = Some csv →
  ∃ tr,
    trace (process_and_upload_chunks E self s).2 = trace s ++ tr
    ∧ budgeted (run_directory E csv) (None, 0%nat) tr.
Proof.
  intros Hcsv.
  destruct (process_and_upload_chunks_sealed
              (requests_budgeted (run_directory E csv)) E
              (run_directory E csv) (seal_requests_budgeted E _)
              self csv s Hcsv eq_refl) as (tr & Htr & Hb).
  exists tr. split; [exact Htr|apply Hb].
Qed.

Lemma run_upload_budget_witness :
  ∃ tr,
    trace (process_and_upload_chunks failing_env demo_uploader demo_state).2
    = trace demo_state ++ tr
    ∧ budgeted ["data"; "assets_20240101_000000"] (None, 0%nat) tr
    ∧ length (List.filter
                (λ e, match e with
                      | EvUpload _ _ _ _ _ => true
                      | _ => false
                      end) tr) = 3%nat.
Proof.
  destruct (run_upload_budget failing_env demo_uploader
              {| csv_directory := ["data"]; csv_stem := "assets";
                 csv_ext := ".csv" |} demo_state)
    as (tr & Htr & Hb); [reflexivity|].
  exists tr. split; [exact Htr|]. split; [exact Hb|].
  change (trace demo_state ++ tr) with tr in Htr. rewrite <- Htr.
  vm_compute. reflexivity.
Defined.

#[export] Instance uploads_carry_refl (p : path) (name : string)
    (body : list Row) : Reflexive (uploads_carry p name body).
Proof.
  intros s Hfile. split; [done|]. exists []. by rewrite app_nil_r.
Qed.

#[export] Instance uploads_carry_trans (p : path) (name : string)
    (body : list Row) : Transitive (uploads_carry p name body).
Proof.
  intros s1 s2 s3 H1 H2 Hfile.
  destruct (H1 Hfile) as (Hfile2 & tr1 & Ht1 & Hall1).
  destruct (H2 Hfile2) as (Hfile3 & tr2 & Ht2 & Hall2).
  split; [done|]. exists (tr1 ++ tr2).
  split; [by rewrite Ht2, Ht1, app_assoc|]. by apply Forall_app.
Qed.

Lemma upload_call_wrapped_carry (E : Env) (self : CsvUploader) (p : path)
    (name : string) (body : list Row) :
  preserves (uploads_carry p name body) (upload_call_wrapped E self p name).
Proof.
  intros s Hfile.
  pose proof (upload_call_wrapped_frame E self p name s) as (Hf & _).
  split; [by rewrite Hf|]. clear Hf.
  rewrite upload_call_wrapped_eq, Hfile. unfold sent. simpl.
  destruct (upload_oracle E (n_upload s)) as [|code text];
    [|destruct (code =? 200); [|destruct (code =? 401)]];
    try (eexists [_; _]; simpl; rewrite <- app_assoc; split; [done|];
         by repeat constructor).
  rewrite generate_jwt_eq. simpl.
  destruct (auth_oracle E (n_auth s)) as [|acode t];
    [|destruct (raise_for_status acode)];
    (eexists [_; _; _]; simpl; rewrite <- !app_assoc; split; [done|];
     by repeat constructor).
Qed.

Lemma upload_csv_file_carry (E : Env) (self : CsvUploader) (name : string)
    (out : path) (body : list Row) (s : State) :
  files s !! (out ++ [name]) = Some body →
  ∃ tr,
    trace (upload_csv_file E self name out s).2 = trace s ++ tr
    ∧ Forall (λ e, match e with
                   | EvUpload _ _ name' body' _ => name' = name ∧ body' = body
                   | EvWrite _ _ => False
                   | _ => True
                   end) tr.
Proof.
  intros Hfile. rewrite upload_csv_file_eq.
  assert (Hcall : uploads_carry (out ++ [name]) name body s
                    (upload_call E self (out ++ [name]) name s).2).
  { exact (preserves_retrying (uploads_carry (out ++ [name]) name body)
             stop_after_attempt _
             (upload_call_wrapped_carry E self (out ++ [name]) name body) s). }
  destruct (Hcall Hfile) as (_ & tr & Htr & Hall). clear Hcall.
  destruct (upload_call E self (out ++ [name]) name s) as [[r|e] s1];
    simpl in Htr.
  - rewrite shutil_move_eq. destruct (move_fails E (n_move s1)).
    { exists tr. by split. }
    destruct (files s1 !! (out ++ [name])) as [f|]; [|exists tr; by split].
    destruct (decide (_ ∈ dirs s1)); [|exists tr; by split].
    exists (tr ++ [EvMove (out ++ [name])
                     (out ++ [PROCESSED_DIR self; name]);
                   EvLog (LogMoved name (out ++ [PROCESSED_DIR self; name]))]).
    simpl. rewrite Htr, <- !app_assoc. split; [done|].
    apply Forall_app. split; [done|]. by repeat constructor.
  - exists (tr ++ [EvLog (LogFailedAfterAttempts (out ++ [name]))]).
    simpl. rewrite Htr, <- app_assoc. split; [done|].
    apply Forall_app. split; [done|]. by repeat constructor.
Qed.

Lemma uploads_written_app (out : path) (tr1 tr2 : list Event) :
  uploads_written out tr1 → uploads_written out tr2 →
  uploads_written out (tr1 ++ tr2).
Proof.
  intros H1 H2 i url a name body r Hi.
  apply lookup_app_Some in Hi as [Hi|[Hlen Hi]].
  - destruct (H1 _ _ _ _ _ _ Hi) as (j & Hj & Hw).
    exists j. split; [done|]. by apply lookup_app_l_Some.
  - destruct (H2 _ _ _ _ _ _ Hi) as (j & Hj & Hw).
    exists (length tr1 + j)%nat. split; [lia|].
    rewrite lookup_app_r by lia.
    by replace (length tr1 + j - length tr1)%nat with j by lia.
Qed.

#[export] Instance uploads_follow_writes_refl (out : path) :
  Reflexive (uploads_follow_writes out).
Proof.
  intros s. exists []. split; [by rewrite app_nil_r|].
  by intros i url a name body r Hi.
Qed.

#[export] Instance uploads_follow_writes_trans (out : path) :
  Transitive (uploads_follow_writes out).
Proof.
  intros s1 s2 s3 (tr1 & Ht1 & H1) (tr2 & Ht2 & H2).
  exists (tr1 ++ tr2). split; [by rewrite Ht2, Ht1, app_assoc|].
  by apply uploads_written_app.
Qed.

Lemma seal_uploads_follow_writes (E : Env) (out : path) (self : CsvUploader)
    (rows : list Row) (index : Z) (headers : Row) (filename : string) :
  preserves (uploads_follow_writes out)
    (_write_chunk self rows index headers filename out
       ≫= λ name, upload_csv_file E self name out).
Proof.
  intros s. unfold mbind, M_bind, bind. rewrite write_chunk_eq.
  destruct (decide (out ∈ dirs s)); [|reflexivity]. cbv beta iota.
  set (name := chunk_name filename index).
  set (s1 := written rows index headers filename out s).
  assert (Hfile : files s1 !! (out ++ [name]) = Some (headers :: rows))
    by apply lookup_insert_eq.
  assert (Ht1 : trace s1
                = trace s
                  ++ [EvWrite (out ++ [name]) (headers :: rows);
                      EvLog (LogWritten name (length rows)
                               (out ++ [name]))]).
  { unfold s1, written. simpl. by rewrite <- app_assoc. }
  clearbody s1.
  destruct (upload_csv_file_carry E self name out (headers :: rows) s1 Hfile)
    as (tr & Htr & Hall).
  eexists. split; [by rewrite Htr, Ht1, <- app_assoc|].
  intros i url a name' body r Hi.
  destruct i as [|[|i]]; [done..|]. simpl in Hi.
  rewrite Forall_lookup in Hall. specialize (Hall _ _ Hi).
  destruct Hall as [-> ->]. exists 0%nat. split; [lia|done].
Qed.

(** Over a whole run, whatever its outcome, every upload request carries
    the name and the content of a chunk file that the run wrote before
    into its run directory: what is sent is the header row and the rows of
    a chunk. *)
Theorem run_uploads_written_chunks (E : Env) (self : CsvUploader)
    (csv : CsvPath) (s : State) :
  CSV_PATH self = Some csv →
  ∃ tr,
    trace (process_and_upload_chunks E self s).2 = trace s ++ tr
    ∧ uploads_written (run_directory E csv) tr.
Proof.
  intros Hcsv.
  apply (process_and_upload_chunks_sealed
           (uploads_follow_writes (run_directory E csv)) E
           (run_directory E csv) (seal_uploads_follow_writes E _)
           self csv s Hcsv eq_refl).
Qed.

Lemma run_uploads_written_chunks_witness :
  ∃ tr,
    trace (process_and_upload_chunks demo_env demo_uploader demo_state).2
    = trace demo_state ++ tr
    ∧ uploads_written ["data"; "assets_20240101_000000"] tr.
Proof.
  apply (run_uploads_written_chunks demo_env demo_uploader
           {| csv_directory := ["data"]; csv_stem := "assets";
              csv_ext := ".csv" |} demo_state).
  reflexivity.
Defined.

(** ** What a run leaves alone *)

#[export] Instance outside_unchanged_refl (out : path) :
  Reflexive (outside_unchanged out).
Proof. by intros s p Hp. Qed.

#[export] Instance outside_unchanged_trans (out : path) :
  Transitive (outside_unchanged out).
Proof. intros s1 s2 s3 H1 H2 p Hp. by rewrite H2, H1. Qed.

Lemma under_run_directory (out rest : path) : out `prefix_of` out ++ rest.
Proof. by exists rest. Qed.

Lemma seal_outside_unchanged (E : Env) (out : path) (self : CsvUploader)
    (rows : list Row) (index : Z) (headers : Row) (filename : string) :
  preserves (outside_unchanged out)
    (_write_chunk self rows index headers filename out
       ≫= λ name, upload_csv_file E self name out).
Proof.
  intros s. unfold mbind, M_bind, bind. rewrite write_chunk_eq.
  destruct (decide (out ∈ dirs s)) as [_|_]; [|reflexivity].
  cbv beta iota.
  set (name := chunk_name filename index).
  set (s1 := written rows index headers filename out s).
  assert (H1 : outside_unchanged out s s1).
  { intros p Hp. unfold s1, written. simpl.
    apply lookup_insert_ne. intros <-. apply Hp, under_run_directory. }
  clearbody s1. etrans; [exact H1|]. clear H1.
  rewrite upload_csv_file_eq.
  pose proof (upload_call_frame E self (out ++ [name]) name s1) as (Hf & _).
  destruct (upload_call E self (out ++ [name]) name s1) as [[r|err] s2];
    simpl in Hf; [|by intros p Hp; simpl; rewrite Hf].
  rewrite shutil_move_eq. destruct (move_fails E (n_move s2)).
  { by intros p Hp; simpl; rewrite Hf. }
  destruct (files s2 !! (out ++ [name])) as [f|];
    [|by intros p Hp; simpl; rewrite Hf].
  destruct (decide (_ ∈ dirs s2)); [|by intros p Hp; simpl; rewrite Hf].
  intros p Hp. simpl.
  rewrite lookup_insert_ne
    by (intros <-; apply Hp, under_run_directory).
  rewrite lookup_delete_ne
    by (intros <-; apply Hp, under_run_directory).
  by rewrite Hf.
Qed.


#[export] Instance writes_confined_refl (out : path) :
  Reflexive (writes_confined out).
Proof. intros s. exists []. by rewrite app_nil_r. Qed.

#[export] Instance writes_confined_trans (out : path) :
  Transitive (writes_confined out).
Proof.
  intros s1 s2 s3 (tr1 & Ht1 & H1) (tr2 & Ht2 & H2).
  exists (tr1 ++ tr2). split; [by rewrite Ht2, Ht1, app_assoc|].
  by apply Forall_app.
Qed.





#[export] Instance dirs_kept_refl : Reflexive dirs_kept.
Proof. by intros s. Qed.

#[export] Instance dirs_kept_trans : Transitive dirs_kept.
Proof. intros s1 s2 s3 H1 H2. unfold dirs_kept in *. congruence. Qed.

Lemma seal_dirs_kept (E : Env) (out : path) (self : CsvUploader)
    (rows : list Row) (index : Z) (headers : Row) (filename : string) :
  preserves dirs_kept
    (_write_chunk self rows index headers filename out
       ≫= λ name, upload_csv_file E self name out).
Proof.
  apply preserves_bind; [apply _| |intros name].
  - apply write_chunk_preserves; try apply _; by intros.
  - apply upload_csv_file_preserves; try apply _; try by intros.
    intros self' p name' s.
    by destruct (upload_call_frame E self' p name' s) as (_ & Hd & _).
Qed.

(** A run, whatever its outcome, removes no directory, and the directories
    it makes are the run directory, its sub-directory [PROCESSED_DIR] and
    their ancestors: they are made before the source is opened, so they
    are there even when the run fails on the source. *)
Theorem run_directories (E : Env) (self : CsvUploader) (csv : CsvPath)
    (s : State) :
  CSV_PATH self = Some csv →
  dirs (process_and_upload_chunks E self s).2
  = list_to_set
      (ancestors_or_self (run_directory E csv ++ [PROCESSED_DIR self]))
    ∪ dirs s.
Proof.
  intros Hcsv.
  apply (process_and_upload_chunks_sealed dirs_kept E
           (run_directory E csv) (seal_dirs_kept E _) self csv s Hcsv
           eq_refl).
Qed.

Lemma run_directories_witness :
  dirs (process_and_upload_chunks failing_env demo_uploader demo_state).2
  = list_to_set
      (ancestors_or_self ["data"; "assets_20240101_000000"; "uploaded"])
    ∪ dirs demo_state.
Proof.
  apply (run_directories failing_env demo_uploader
           {| csv_directory := ["data"]; csv_stem := "assets";
              csv_ext := ".csv" |} demo_state).
  reflexivity.
Defined.

(** ** The chunk files of a run *)

Lemma string_app_inj_r (s1 s2 t : string) :
  s1 +:+ t = s2 +:+ t → s1 = s2.
Proof.
  revert s2. induction s1 as [|a s1 IH]; intros [|b s2] H; simpl in H.
  - done.
  - apply (f_equal String.length) in H.
    rewrite !string_length_app in H. simpl in H. lia.
  - apply (f_equal String.length) in H.
    rewrite !string_length_app in H. simpl in H. lia.
  - injection H as -> H. f_equal. by apply IH.
Qed.

#[export] Instance chunk_name_inj (filename : string) :
  Inj (=) (=) (chunk_name filename).
Proof.
  intros i j H. unfold chunk_name in H.
  apply String.app_inj, String.app_inj, string_app_inj_r in H.
  by apply (inj pretty).
Qed.

Lemma row_size_pos (row : Row) : 1 ≤ row_size row.
Proof. unfold row_size. lia. Qed.


Lemma payload_nonneg (l : list Row) : 0 ≤ payload l.
Proof.
  induction l as [|r l IH]; unfold payload in *; simpl; [done|].
  pose proof (row_size_pos r). lia.
Qed.



Lemma sealed_in_loop_nonempty (max : Z) (rows : list Row) (b : Buffer) :
  Forall (λ c : Z * list Row, c.2 ≠ []) (sealed_in_loop max rows b)
  ∧ (length (sealed_in_loop max rows b) ≤ length rows)%nat.
Proof.
  revert b. induction rows as [|row rest IH]; intros b; simpl.
  - split; [done|lia].
  - destruct (IH (next_buffer max b row)) as [IH1 IH2].
    rewrite Forall_app, length_app. unfold sealed_by.
    destruct (_ >? _); simpl.
    + split; [|lia]. split; [|done]. constructor; [|done].
      simpl. by destruct (chunk b).
    + split; [by split|lia].
Qed.

Lemma buffer_after_nonempty (max : Z) (rows : list Row) (b : Buffer) :
  rows ≠ [] → chunk (buffer_after max rows b) ≠ [].
Proof.
  revert b. induction rows as [|row rest IH]; intros b Hne; [done|].
  simpl. destruct rest as [|row' rest'].
  - simpl. unfold next_buffer. destruct (_ >? _); simpl; [done|].
    by destruct (chunk b).
  - by apply IH.
Qed.

Lemma chunks_of_nonempty (max : Z) (rows : list Row) :
  Forall (λ c : Z * list Row, c.2 ≠ []) (chunks_of max rows)
  ∧ (rows ≠ [] → chunks_of max rows ≠ [])
  ∧ (length (chunks_of max rows) ≤ S (length rows))%nat.
Proof.
  unfold chunks_of.
  destruct (sealed_in_loop_nonempty max rows empty_buffer) as [H1 H2].
  split; [|split].
  - apply Forall_app. split; [done|]. unfold sealed_at_end.
    destruct (chunk (buffer_after max rows empty_buffer)) eqn:Hc;
      constructor; [|done]. by simpl.
  - intros Hne. pose proof (buffer_after_nonempty max rows empty_buffer Hne).
    unfold sealed_at_end.
    destruct (chunk (buffer_after max rows empty_buffer)); [done|].
    by destruct (sealed_in_loop max rows empty_buffer).
  - rewrite length_app. unfold sealed_at_end.
    destruct (chunk (buffer_after max rows empty_buffer)); simpl; lia.
Qed.

(** On a run whose source holds the rows to skip, the header row and the
    data rows, and whose moves are not refused, the chunk files written
    hold, file after file and the header row of each left out, the data
    rows of the source in their order, each row twice and none missing;
    and each file starts with the header row. *)
Theorem run_keeps_every_row (E : Env) (self : CsvUploader) (csv : CsvPath)
    (pre : list Row) (headers : Row) (rows : list Row) (s : State) :
  CSV_PATH self = Some csv →
  files s !! csv_path_key csv = Some (pre ++ headers :: rows) →
  length pre = Z.to_nat (HEADER self - 1) →
  (∀ k, move_fails E k = false) →
  ∃ W,
    writes (trace (process_and_upload_chunks E self s).2)
    = writes (trace s) ++ W
    ∧ concat ((λ w : path * list Row, tail w.2) <$> W) = rows ≫= twice
    ∧ Forall (λ w : path * list Row, head w.2 = Some headers) W.
Proof.
  intros Hcsv Hfile Hpre Hmove.
  destruct (process_and_upload_chunks_healthy E self csv pre headers rows s
              Hcsv Hfile Hpre Hmove) as (s' & -> & Hw).
  eexists. split; [exact Hw|]. split.
  - rewrite <- list_fmap_compose.
    rewrite <- (chunks_of_rows (MAX_CHUNK_SIZE self) rows). f_equal.
  - apply Forall_fmap, Forall_true. by intros c.
Qed.

Lemma run_keeps_every_row_witness :
  ∃ W,
    writes (trace (process_and_upload_chunks demo_env demo_uploader
                     demo_state).2)
    = writes (trace demo_state) ++ W
    ∧ concat ((λ w : path * list Row, tail w.2) <$> W)
      = [["1"; "ab"]] ≫= twice
    ∧ Forall (λ w : path * list Row, head w.2 = Some ["id"; "name"]) W.
Proof.
  apply (run_keeps_every_row demo_env demo_uploader
           {| csv_directory := ["data"]; csv_stem := "assets";
              csv_ext := ".csv" |} [] ["id"; "name"] [["1"; "ab"]]
           demo_state).
  - reflexivity.
  - vm_compute. reflexivity.
  - reflexivity.
  - reflexivity.
Defined.

(** On such a run the chunk files are named after the source with the
    indices 1, 2, ... in the order of writing, in the run directory, so no
    chunk file of the run replaces another. *)
Theorem run_chunk_files_numbered (E : Env) (self : CsvUploader)
    (csv : CsvPath) (pre : list Row) (headers : Row) (rows : list Row)
    (s : State) :
  CSV_PATH self = Some csv →
  files s !! csv_path_key csv = Some (pre ++ headers :: rows) →
  length pre = Z.to_nat (HEADER self - 1) →
  (∀ k, move_fails E k = false) →
  ∃ W,
    writes (trace (process_and_upload_chunks E self s).2)
    = writes (trace s) ++ W
    ∧ W.*1
      = (λ k, run_directory E csv
              ++ [chunk_name (csv_stem csv) (1 + Z.of_nat k)])
        <$> seq 0 (length W)
    ∧ NoDup W.*1.
Proof.
  intros Hcsv Hfile Hpre Hmove.
  destruct (process_and_upload_chunks_healthy E self csv pre headers rows s
              Hcsv Hfile Hpre Hmove) as (s' & -> & Hw).
  eexists. split; [exact Hw|].
  assert (Hnames :
    (write_of headers (csv_stem csv) (run_directory E csv)
       <$> chunks_of (MAX_CHUNK_SIZE self) rows).*1
    = (λ k, run_directory E csv
            ++ [chunk_name (csv_stem csv) (1 + Z.of_nat k)])
      <$> seq 0 (length (write_of headers (csv_stem csv)
                           (run_directory E csv)
                           <$> chunks_of (MAX_CHUNK_SIZE self) rows))).
  { assert (Hfst : ∀ l : list (Z * list Row),
      (write_of headers (csv_stem csv) (run_directory E csv) <$> l).*1
      = (λ i, run_directory E csv ++ [chunk_name (csv_stem csv) i])
        <$> l.*1).
    { intros l. induction l as [|c l IH]; simpl; [done|by f_equal]. }
    by rewrite Hfst, chunks_of_index, <- list_fmap_compose, !length_fmap. }
  split; [exact Hnames|]. rewrite Hnames.
  apply NoDup_fmap_2; [|apply NoDup_seq].
  intros k1 k2 Hk. apply app_inv_head in Hk. injection Hk as Hk.
  apply (inj (chunk_name _)) in Hk. lia.
Qed.

Lemma run_chunk_files_numbered_witness :
  ∃ W,
    writes (trace (process_and_upload_chunks demo_env demo_uploader
                     demo_state).2)
    = writes (trace demo_state) ++ W
    ∧ W.*1
      = (λ k, ["data"; "assets_20240101_000000"]
              ++ [chunk_name "assets" (1 + Z.of_nat k)])
        <$> seq 0 (length W)
    ∧ NoDup W.*1.
Proof.
  apply (run_chunk_files_numbered demo_env demo_uploader
           {| csv_directory := ["data"]; csv_stem := "assets";
              csv_ext := ".csv" |} [] ["id"; "name"] [["1"; "ab"]]
           demo_state).
  - reflexivity.
  - vm_compute. reflexivity.
  - reflexivity.
  - reflexivity.
Defined.

(** On such a run every chunk file holds the header row and at least one
    data row; a source with data rows gives at least one chunk file, and
    there is at most one chunk file more than there are data rows. *)
Theorem run_writes_no_empty_chunk (E : Env) (self : CsvUploader)
    (csv : CsvPath) (pre : list Row) (headers : Row) (rows : list Row)
    (s : State) :
  CSV_PATH self = Some csv →
  files s !! csv_path_key csv = Some (pre ++ headers :: rows) →
  length pre = Z.to_nat (HEADER self - 1) →
  (∀ k, move_fails E k = false) →
  ∃ W,
    writes (trace (process_and_upload_chunks E self s).2)
    = writes (trace s) ++ W
    ∧ Forall (λ w : path * list Row, (2 ≤ length w.2)%nat) W
    ∧ (rows ≠ [] → W ≠ [])
    ∧ (length W ≤ S (length rows))%nat.
Proof.
  intros Hcsv Hfile Hpre Hmove.
  destruct (process_and_upload_chunks_healthy E self csv pre headers rows s
              Hcsv Hfile Hpre Hmove) as (s' & -> & Hw).
  destruct (chunks_of_nonempty (MAX_CHUNK_SIZE self) rows)
    as (Hne & Hsome & Hlen).
  eexists. split; [exact Hw|]. split; [|split].
  - apply Forall_fmap. eapply Forall_impl; [exact Hne|].
    intros [i c] Hc. simpl in *. destruct c; [done|simpl; lia].
  - intros Hrows Hnil. apply fmap_nil_inv in Hnil. by apply Hsome.
  - by rewrite length_fmap.
Qed.

Lemma run_writes_no_empty_chunk_witness :
  ∃ W,
    writes (trace (process_and_upload_chunks demo_env demo_uploader
                     demo_state).2)
    = writes (trace demo_state) ++ W
    ∧ Forall (λ w : path * list Row, (2 ≤ length w.2)%nat) W
    ∧ ([["1"; "ab"]] ≠ [] → W ≠ [])
    ∧ (length W ≤ 2)%nat.
Proof.
  apply (run_writes_no_empty_chunk demo_env demo_uploader
           {| csv_directory := ["data"]; csv_stem := "assets";
              csv_ext := ".csv" |} [] ["id"; "name"] [["1"; "ab"]]
           demo_state).
  - reflexivity.
  - vm_compute. reflexivity.
  - reflexivity.
  - reflexivity.
Defined.



(** ** A source without data rows *)

Lemma skip_rows_short (n : nat) (reader : list Row) (s : State) :
  (length reader < n)%nat → skip_rows n reader s = (Raise StopIteration, s).
Proof.
  revert reader. induction n as [|n IH]; intros reader Hlen; [lia|].
  destruct reader as [|r reader]; simpl; [done|]. apply IH. simpl in Hlen. lia.
Qed.

(** The run once the directories are made. *)
Lemma process_and_upload_chunks_prepared (E : Env) (self : CsvUploader)
    (csv : CsvPath) (s : State) :
  CSV_PATH self = Some csv →
  process_and_upload_chunks E self s
  = match files s !! csv_path_key csv with
    | None => raise (FileNotFoundError (csv_path_key csv))
    | Some csv_file_reader =>
        csv_file_reader ←
          skip_rows (Z.to_nat (HEADER self - 1)) csv_file_reader;
        match csv_file_reader with
        | [] => raise StopIteration
        | headers :: rows =>
            b ← for_rows E self headers (csv_stem csv) (run_directory E csv)
                  rows empty_buffer;
            match chunk b with
            | [] => ret tt
            | _ :: _ =>
                chunk_filename ←
                  _write_chunk self (chunk b) (chunk_index b + 1) headers
                    (csv_stem csv) (run_directory E csv);
                upload_csv_file E self chunk_filename (run_directory E csv)
            end
        end
    end (makedirs (run_directory E csv ++ [PROCESSED_DIR self]) s).
Proof.
  intros Hcsv. unfold process_and_upload_chunks.
  unfold mbind at 1, M_bind at 1, bind at 1.
  rewrite (prepare_output_directory_eq E self csv s Hcsv).
  unfold mbind at 1, M_bind at 1, bind at 1, get at 1. by rewrite Hcsv.
Qed.

(** When the source file is missing the run ends with [FileNotFoundError],
    and when it holds no more rows than the header offset skips it ends
    with [StopIteration]; in both cases no chunk file was written and no
    request sent, but the directories of the run are made. *)
Theorem run_fails_on_source (E : Env) (self : CsvUploader) (csv : CsvPath)
    (s : State) :
  CSV_PATH self = Some csv →
  (files s !! csv_path_key csv = None →
   process_and_upload_chunks E self s
   = (Raise (FileNotFoundError (csv_path_key csv)),
      makedirs (run_directory E csv ++ [PROCESSED_DIR self]) s))
  ∧ (∀ content,
       files s !! csv_path_key csv = Some content →
       (length content ≤ Z.to_nat (HEADER self - 1))%nat →
       process_and_upload_chunks E self s
       = (Raise StopIteration,
          makedirs (run_directory E csv ++ [PROCESSED_DIR self]) s)).
Proof.
  intros Hcsv. rewrite (process_and_upload_chunks_prepared E self csv s Hcsv).
  split.
  - intros Hnone. by rewrite Hnone.
  - intros content Hfile Hlen. rewrite Hfile.
    unfold mbind at 1, M_bind at 1, bind at 1.
    destruct (decide (length content = Z.to_nat (HEADER self - 1)))
      as [Heq|Hne].
    + rewrite <- Heq.
      pose proof (skip_rows_app content []) as Hskip.
      rewrite app_nil_r in Hskip. by rewrite Hskip.
    + by rewrite skip_rows_short by lia.
Qed.

Lemma run_fails_on_source_witness :
  process_and_upload_chunks demo_env demo_uploader
    (set_files ∅ demo_state)
  = (Raise (FileNotFoundError ["data"; "assets.csv"]),
     makedirs ["data"; "assets_20240101_000000"; "uploaded"]
       (set_files ∅ demo_state)).
Proof.
  apply (run_fails_on_source demo_env demo_uploader
           {| csv_directory := ["data"]; csv_stem := "assets";
              csv_ext := ".csv" |} (set_files ∅ demo_state)).
  - reflexivity.
  - reflexivity.
Defined.

(** When the source holds the rows to skip and the header row and nothing
    more, the run returns with the directories made and nothing else
    done: no chunk file, no request. *)
Theorem run_on_header_only (E : Env) (self : CsvUploader) (csv : CsvPath)
    (pre : list Row) (headers : Row) (s : State) :
  CSV_PATH self = Some csv →
  files s !! csv_path_key csv = Some (pre ++ [headers]) →
  length pre = Z.to_nat (HEADER self - 1) →
  process_and_upload_chunks E self s
  = (Ok tt, makedirs (run_directory E csv ++ [PROCESSED_DIR self]) s).
Proof.
  intros Hcsv Hfile Hpre.
  rewrite (process_and_upload_chunks_prepared E self csv s Hcsv), Hfile.
  unfold mbind at 1, M_bind at 1, bind at 1.
  by rewrite <- Hpre, skip_rows_app.
Qed.

Lemma run_on_header_only_witness :
  process_and_upload_chunks demo_env demo_uploader
    (set_files {[ ["data"; "assets.csv"] := [["id"; "name"]] ]} demo_state)
  = (Ok tt,
     makedirs ["data"; "assets_20240101_000000"; "uploaded"]
       (set_files {[ ["data"; "assets.csv"] := [["id"; "name"]] ]}
          demo_state)).
Proof.
  apply (run_on_header_only demo_env demo_uploader
           {| csv_directory := ["data"]; csv_stem := "assets";
              csv_ext := ".csv" |} [] ["id"; "name"]
           (set_files {[ ["data"; "assets.csv"] := [["id"; "name"]] ]}
              demo_state)).
  - reflexivity.
  - vm_compute. reflexivity.
  - reflexivity.
Defined.

(** ** When an upload succeeds *)

Lemma answer_200_dec (r : HttpResult) :
  (∃ text, r = Response 200 text) ∨ (∀ text, r ≠ Response 200 text).
Proof.
  destruct r as [|code text]; [by right|].
  destruct (decide (code = 200)) as [->|Hne]; [left; by exists text|].
  right. intros text' [= ? _]. done.
Qed.

(** With the chunk file in place, [upload_call] returns exactly when one of
    the first three answers is a 200; it then returns the first such
    answer, and as many requests were sent as answers were needed.  A 200
    that would come later is never asked for. *)
Theorem upload_call_succeeds_iff (E : Env) (self : CsvUploader) (p : path)
    (name : string) (f : list Row) (s : State) :
  files s !! p = Some f →
  ((∃ r, (upload_call E self p name s).1 = Ok r)
   ↔ ∃ k text, (k < 3)%nat
               ∧ upload_oracle E (n_upload s + k) = Response 200 text)
  ∧ (∀ k text,
       (k < 3)%nat →
       (∀ j text', (j < k)%nat →
          upload_oracle E (n_upload s + j) ≠ Response 200 text') →
       upload_oracle E (n_upload s + k) = Response 200 text →
       (upload_call E self p name s).1 = Ok (Response 200 text)
       ∧ n_upload (upload_call E self p name s).2
         = (n_upload s + k + 1)%nat).
Proof.
  intros Hfile.
  assert (Hfirst : ∀ k text,
    (k < 3)%nat →
    (∀ j text', (j < k)%nat →
       upload_oracle E (n_upload s + j) ≠ Response 200 text') →
    upload_oracle E (n_upload s + k) = Response 200 text →
    (upload_call E self p name s).1 = Ok (Response 200 text)
    ∧ n_upload (upload_call E self p name s).2
      = (n_upload s + k + 1)%nat).
  { intros k text Hk Hno Hyes. unfold upload_call, stop_after_attempt.
    destruct (retrying_succeeds E self p name f 3 k text s Hfile Hk Hno Hyes)
      as (s' & -> & Hn). done. }
  split; [|exact Hfirst]. split.
  - intros [r Hr].
    destruct (answer_200_dec (upload_oracle E (n_upload s + 0)))
      as [[t0 H0]|H0]; [exists 0%nat, t0; split; [lia|done]|].
    destruct (answer_200_dec (upload_oracle E (n_upload s + 1)))
      as [[t1 H1]|H1]; [exists 1%nat, t1; split; [lia|done]|].
    destruct (answer_200_dec (upload_oracle E (n_upload s + 2)))
      as [[t2 H2]|H2]; [exists 2%nat, t2; split; [lia|done]|].
    exfalso. unfold upload_call, stop_after_attempt in Hr.
    destruct (retrying_exhausted E self p name f 3 s Hfile) as (s' & Hrun & _).
    { intros k text Hk. destruct k as [|[|[|k]]]; [done..|lia]. }
    by rewrite Hrun in Hr.
  - intros (k & text & Hk & Hyes).
    destruct (answer_200_dec (upload_oracle E (n_upload s + 0)))
      as [[t0 H0]|H0].
    { exists (Response 200 t0). apply (Hfirst 0%nat); [lia| |done].
      intros j text' Hj. lia. }
    destruct (answer_200_dec (upload_oracle E (n_upload s + 1)))
      as [[t1 H1]|H1].
    { exists (Response 200 t1). apply (Hfirst 1%nat); [lia| |done].
      intros j text' Hj. by replace j with 0%nat by lia. }
    destruct (answer_200_dec (upload_oracle E (n_upload s + 2)))
      as [[t2 H2]|H2].
    { exists (Response 200 t2). apply (Hfirst 2%nat); [lia| |done].
      intros j text' Hj. destruct j as [|[|j]]; [done..|lia]. }
    exfalso. destruct k as [|[|[|k]]]; [by eapply H0|by eapply H1|
                                         by eapply H2|lia].
Qed.

Lemma upload_call_succeeds_iff_witness :
  (upload_call expired_once_env demo_uploader ["data"; "assets.csv"]
     "assets.csv" demo_state).1 = Ok (Response 200 "ok")
  ∧ n_upload (upload_call expired_once_env demo_uploader
                ["data"; "assets.csv"] "assets.csv" demo_state).2
    = 2%nat.
Proof.
  destruct (upload_call_succeeds_iff expired_once_env demo_uploader
              ["data"; "assets.csv"] "assets.csv"
              [["id"; "name"]; ["1"; "ab"]] demo_state) as [_ Hfirst].
  - vm_compute. reflexivity.
  - apply (Hfirst 1%nat "ok").
    + lia.
    + intros j text' Hj. replace j with 0%nat by lia. simpl. discriminate.
    + reflexivity.
Defined.

(** ** Construction and the first authentication *)

Lemma fill_username_password_cases (E : Env) (self : CsvUploader)
    (s : State) :
  (∃ msg,
     _fill_username_password E self s
     = (Raise (RuntimeError msg), emit (EvLog LogReadingEnv) s))
  ∨ (∃ self' s',
       _fill_username_password E self s = (Ok self', s')
       ∧ (s' = s ∨ s' = emit (EvLog LogReadingEnv) s)).
Proof.
  unfold _fill_username_password.
  destruct (envQualysUsernameProperty self) as [uvar|];
    [destruct (envQualysPasswordProperty self) as [pvar|]|].
  - unfold_monad. simpl.
    destruct (environ E !! uvar) as [u|];
      [destruct (environ E !! pvar) as [p|]|];
      try (left; by eexists).
    right. eexists _, _. split; [done|by right].
  - right. eexists _, _. split; [done|by left].
  - right. eexists _, _. split; [done|by left].
Qed.

(** When the first request to the auth endpoint fails (no answer, or a
    status from 400 to 599), the construction of the uploader raises, and
    [start] ends with the same exception before the run directory is
    made: no directory is made, no upload request is sent and no token is
    stored, and the history gains requests to the auth endpoint and log
    records only, so no chunk file is written and no file is moved. *)
Theorem start_stops_on_failed_authentication (E : Env) (args : Args)
    (s : State) :
  (auth_oracle E (n_auth s) = TransportError
   ∨ ∃ code text, auth_oracle E (n_auth s) = Response code text
                  ∧ raise_for_status code = true) →
  ∃ e s' tr,
    __init__ E args s = (Raise e, s')
    ∧ start E args s = (Raise e, s')
    ∧ (e = RequestException ∨ ∃ msg, e = RuntimeError msg)
    ∧ dirs s' = dirs s
    ∧ n_upload s' = n_upload s
    ∧ n_move s' = n_move s
    ∧ generated_jwt s' = generated_jwt s
    ∧ trace s' = trace s ++ tr
    ∧ Forall auth_or_log tr.
Proof.
  intros Hauth.
  assert (Hinit : ∃ e s' tr,
    __init__ E args s = (Raise e, s')
    ∧ (e = RequestException ∨ ∃ msg, e = RuntimeError msg)
    ∧ dirs s' = dirs s
    ∧ n_upload s' = n_upload s
    ∧ n_move s' = n_move s
    ∧ generated_jwt s' = generated_jwt s
    ∧ trace s' = trace s ++ tr
    ∧ Forall auth_or_log tr).
  { unfold __init__. unfold mbind at 1, M_bind at 1, bind at 1.
    match goal with
    | |- context [_fill_username_password E ?self0 s] =>
        destruct (fill_username_password_cases E self0 s)
          as [[msg ->]|(self' & s1 & -> & Hs1)]
    end.
    - eexists _, _, [_]. split; [done|]. split; [right; by eexists|].
      repeat split. by repeat constructor.
    - unfold mbind at 1, M_bind at 1, bind at 1.
      rewrite generate_jwt_eq. unfold asked.
      destruct Hs1 as [->| ->]; simpl;
        destruct Hauth as [->|(code & text & -> & ->)];
        (eexists _, _, _; split; [done|]; split; [by left|]; simpl;
         rewrite <- ?app_assoc; repeat split; by repeat constructor). }
  destruct Hinit as (e & s' & tr & Hrun & Hrest).
  exists e, s', tr. split; [exact Hrun|]. split; [|exact Hrest].
  unfold start, mbind, M_bind, bind. by rewrite Hrun.
Qed.

Lemma start_stops_on_failed_authentication_witness :
  ∃ e s' tr,
    start
      {| environ := ∅; now := "20240101_000000";
         auth_oracle := λ _, Response 403 "forbidden";
         upload_oracle := λ _, Response 200 "ok";
         move_fails := λ _, false |}
      demo_args demo_state = (Raise e, s')
    ∧ dirs s' = dirs demo_state
    ∧ trace s' = trace demo_state ++ tr
    ∧ Forall auth_or_log tr.
Proof.
  destruct (start_stops_on_failed_authentication
              {| environ := ∅; now := "20240101_000000";
                 auth_oracle := λ _, Response 403 "forbidden";
                 upload_oracle := λ _, Response 200 "ok";
                 move_fails := λ _, false |}
              demo_args demo_state)
    as (e & s' & tr & _ & Hrun & _ & Hd & _ & _ & _ & Htr & Hall).
  - right. exists 403, "forbidden". split; reflexivity.
  - exists e, s', tr. split; [exact Hrun|]. split; [exact Hd|].
    split; [exact Htr|exact Hall].
Defined.

(** When both names of environment variables are configured and both
    variables are set, the request to the auth endpoint carries the values
    of the variables, whatever user name and password the arguments give;
    when the answer is accepted its body is stored as the token, after one
    request. *)
Theorem init_takes_credentials_from_environment (E : Env) (args : Args)
    (uvar pvar u p : string) (s : State) :
  envQualysUsernamePropertyArg args = Some uvar →
  envQualysPasswordPropertyArg args = Some pvar →
  environ E !! uvar = Some u →
  environ E !! pvar = Some p →
  (∃ l,
     trace (__init__ E args s).2
     = trace s
       ++ [EvLog LogReadingEnv;
           EvAuth (baseUrl args +:+ "/auth") (Some u) (Some p)
             (auth_oracle E (n_auth s));
           EvLog l])
  ∧ (∀ code text,
       auth_oracle E (n_auth s) = Response code text →
       raise_for_status code = false →
       ∃ self,
         (__init__ E args s).1 = Ok self
         ∧ USERNAME self = Some u ∧ PASSWORD self = Some p
         ∧ generated_jwt (__init__ E args s).2 = text
         ∧ n_auth (__init__ E args s).2 = S (n_auth s)).
Proof.
  intros Hu Hp Hue Hpe.
  assert (Hinit : __init__ E args s
    = (t ← _generate_jwt E
             (with_credentials (Some u) (Some p)
                {| CSV_PATH := csvPath args;
                   HEADER := default 1 (header args);
                   MAX_CHUNK_SIZE := 9 * 1024 * 1024;
                   BASE_URL := baseUrl args;
                   USERNAME := username args;
                   PASSWORD := password args;
                   CONNECTION_UUID := connectionUuid args;
                   PROFILE_UUID := profileUuid args;
                   QAS_JWT_TOKEN_URI := "/auth";
                   PROCESSED_DIR := "uploaded";
                   envQualysUsernameProperty := Some uvar;
                   envQualysPasswordProperty := Some pvar |});
       modify (set_generated_jwt t);;
       ret (with_credentials (Some u) (Some p)
              {| CSV_PATH := csvPath args;
                 HEADER := default 1 (header args);
                 MAX_CHUNK_SIZE := 9 * 1024 * 1024;
                 BASE_URL := baseUrl args;
                 USERNAME := username args;
                 PASSWORD := password args;
                 CONNECTION_UUID := connectionUuid args;
                 PROFILE_UUID := profileUuid args;
                 QAS_JWT_TOKEN_URI := "/auth";
                 PROCESSED_DIR := "uploaded";
                 envQualysUsernameProperty := Some uvar;
                 envQualysPasswordProperty := Some pvar |}))
      (emit (EvLog LogReadingEnv) s)).
  { unfold __init__, _fill_username_password. simpl. rewrite Hu, Hp.
    unfold mbind at 1, M_bind at 1, bind at 1.
    unfold mbind at 1, M_bind at 1, bind at 1. unfold logging, modify at 1.
    by rewrite Hue, Hpe. }
  rewrite Hinit. clear Hinit. unfold mbind, M_bind, bind, modify, ret.
  rewrite generate_jwt_eq. unfold asked. simpl.
  destruct (auth_oracle E (n_auth s)) as [|code text] eqn:Hauth.
  { split; [|by intros ?? [=]]. eexists. simpl.
    by rewrite <- !app_assoc. }
  destruct (raise_for_status code) eqn:Hst.
  - split; [|intros ?? [= -> ->]; congruence]. eexists. simpl.
    by rewrite <- !app_assoc.
  - split.
    + eexists. simpl. by rewrite <- !app_assoc.
    + intros code' text' [= <- <-] _. by eexists.
Qed.

Lemma init_takes_credentials_from_environment_witness :
  ∃ self,
    (__init__
       {| environ := {[ "QUSER" := "alice"; "QPASS" := "s3cret" ]};
          now := "20240101_000000";
          auth_oracle := λ _, Response 200 "jwt1";
          upload_oracle := λ _, Response 200 "ok";
          move_fails := λ _, false |}
       demo_env_args demo_state).1 = Ok self
    ∧ USERNAME self = Some "alice" ∧ PASSWORD self = Some "s3cret".
Proof.
  destruct (init_takes_credentials_from_environment
              {| environ := {[ "QUSER" := "alice"; "QPASS" := "s3cret" ]};
                 now := "20240101_000000";
                 auth_oracle := λ _, Response 200 "jwt1";
                 upload_oracle := λ _, Response 200 "ok";
                 move_fails := λ _, false |}
              demo_env_args "QUSER" "QPASS" "alice" "s3cret" demo_state)
    as [_ Hok].
  - reflexivity.
  - reflexivity.
  - vm_compute. reflexivity.
  - vm_compute. reflexivity.
  - destruct (Hok 200 "jwt1") as (self & Hrun & Hu & Hp & _);
      [reflexivity..|].
    exists self. split; [exact Hrun|]. split; [exact Hu|exact Hp].
Defined.

(** When one of the two names of environment variables is not configured,
    the environment is not read: the request to the auth endpoint carries
    the user name and the password of the arguments, and nothing is raised
    for a variable that is not set. *)
Theorem init_takes_credentials_from_arguments (E : Env) (args : Args)
    (s : State) :
  envQualysUsernamePropertyArg args = None
  ∨ envQualysPasswordPropertyArg args = None →
  ∃ l,
    trace (__init__ E args s).2
    = trace s
      ++ [EvAuth (baseUrl args +:+ "/auth") (username args) (password args)
            (auth_oracle E (n_auth s));
          EvLog l].
Proof.
  intros Hnone.
  assert (Hfill : ∀ self,
    envQualysUsernameProperty self = envQualysUsernamePropertyArg args →
    envQualysPasswordProperty self = envQualysPasswordPropertyArg args →
    _fill_username_password E self s = (Ok self, s)).
  { intros self Hu Hp. unfold _fill_username_password. rewrite Hu, Hp.
    destruct Hnone as [->| ->]; [done|].
    by destruct (envQualysUsernamePropertyArg args). }
  unfold __init__. unfold mbind at 1, M_bind at 1, bind at 1.
  rewrite Hfill by done. unfold mbind at 1, M_bind at 1, bind at 1.
  rewrite generate_jwt_eq. unfold asked. simpl.
  destruct (auth_oracle E (n_auth s)) as [|code text];
    [|destruct (raise_for_status code)];
    eexists; simpl; by rewrite <- !app_assoc.
Qed.

Lemma init_takes_credentials_from_arguments_witness :
  ∃ l,
    trace (__init__ demo_env
             {| csvPath := csvPath demo_args; header := None;
                baseUrl := "https://gateway";
                username := Some "user"; password := Some "secret";
                connectionUuid := "c-1"; profileUuid := "p-1";
                envQualysUsernamePropertyArg := Some "NOT_SET";
                envQualysPasswordPropertyArg := None |}
             demo_state).2
    = [EvAuth "https://gateway/auth" (Some "user") (Some "secret")
         (Response 200 "jwt1");
       EvLog l].
Proof.
  apply (init_takes_credentials_from_arguments demo_env
           {| csvPath := csvPath demo_args; header := None;
              baseUrl := "https://gateway";
              username := Some "user"; password := Some "secret";
              connectionUuid := "c-1"; profileUuid := "p-1";
              envQualysUsernamePropertyArg := Some "NOT_SET";
              envQualysPasswordPropertyArg := None |}
           demo_state).
  right. reflexivity.
Defined.

(** ** A later run and an earlier run *)

Lemma run_directories_apart (E1 E2 : Env) (csv : CsvPath) (rest : path) :
  now E1 ≠ now E2 →
  ¬ run_directory E2 csv `prefix_of` run_directory E1 csv ++ rest.
Proof.
  intros Hnow [k Hk]. unfold run_directory in Hk.
  rewrite <- !app_assoc in Hk. apply app_inv_head in Hk.
  injection Hk as Hname _.
  by apply String.app_inj, String.app_inj in Hname.
Qed.

(** A run made at another time stamp than an earlier run of the same
    source changes nothing under the run directory of the earlier run:
    its chunk files, relocated or not, stay as they were. *)
Theorem later_run_keeps_earlier_run (E1 E2 : Env) (self : CsvUploader)
    (csv : CsvPath) (s : State) (rest : path) :
  CSV_PATH self = Some csv →
  now E1 ≠ now E2 →
  files (process_and_upload_chunks E2 self s).2
    !! (run_directory E1 csv ++ rest)
  = files s !! (run_directory E1 csv ++ rest).
Proof.
  intros Hcsv Hnow.
  apply (process_and_upload_chunks_sealed
           (outside_unchanged (run_directory E2 csv)) E2
           (run_directory E2 csv) (seal_outside_unchanged E2 _)
           self csv s Hcsv eq_refl).
  by apply run_directories_apart.
Qed.

Lemma later_run_keeps_earlier_run_witness :
  files
    (process_and_upload_chunks demo_env demo_uploader
       (process_and_upload_chunks
          {| environ := ∅; now := "20231231_235959";
             auth_oracle := λ _, Response 200 "jwt1";
             upload_oracle := λ _, Response 500 "boom";
             move_fails := λ _, false |}
          demo_uploader demo_state).2).2
    !! ["data"; "assets_20231231_235959"; "assets_1.csv"]
  = Some [["id"; "name"]; ["1"; "ab"]; ["1"; "ab"]].
Proof.
  rewrite (later_run_keeps_earlier_run
             {| environ := ∅; now := "20231231_235959";
                auth_oracle := λ _, Response 200 "jwt1";
                upload_oracle := λ _, Response 500 "boom";
                move_fails := λ _, false |}
             demo_env demo_uploader
             {| csv_directory := ["data"]; csv_stem := "assets";
                csv_ext := ".csv" |} _ ["assets_1.csv"]).
  - vm_compute. reflexivity.
  - reflexivity.
  - simpl. discriminate.
Defined.

(** ** Where the chunk files are after a run *)

Lemma seal_places (E : Env) (self : CsvUploader) (rows : list Row)
    (index : Z) (headers : Row) (filename : string) (out : path)
    (s : State) :
  out ∈ dirs s →
  out ++ [PROCESSED_DIR self] ∈ dirs s →
  (∀ k, move_fails E k = false) →
  ∃ s1 s',
    _write_chunk self rows index headers filename out s
      = (Ok (chunk_name filename index), s1)
    ∧ upload_csv_file E self (chunk_name filename index) out s1 = (Ok tt, s')
    ∧ dirs s' = dirs s
    ∧ chunk_on_disk out (PROCESSED_DIR self) headers filename s'
        (index, rows)
    ∧ (∀ p, p ≠ out ++ [chunk_name filename index] →
            p ≠ out ++ [PROCESSED_DIR self; chunk_name filename index] →
            files s' !! p = files s !! p).
Proof.
  intros Hout Hproc Hmove. rewrite write_chunk_eq.
  destruct (decide (out ∈ dirs s)) as [_|Hn]; [|done].
  set (name := chunk_name filename index).
  set (s1 := written rows index headers filename out s).
  assert (Hfile : files s1 !! (out ++ [name]) = Some (headers :: rows))
    by apply lookup_insert_eq.
  assert (Hother : ∀ p, p ≠ out ++ [name] → files s1 !! p = files s !! p).
  { intros p Hp. unfold s1, written. simpl. by apply lookup_insert_ne. }
  assert (Hd1 : dirs s1 = dirs s) by done.
  clearbody s1. exists s1. rewrite upload_csv_file_eq.
  pose proof (upload_call_frame E self (out ++ [name]) name s1)
    as (Hf & Hd & Hm & Hw).
  unfold chunk_on_disk. simpl. fold name.
  destruct (upload_call E self (out ++ [name]) name s1) as [[r|err] s2];
    simpl in Hf, Hd, Hm, Hw.
  - rewrite shutil_move_eq, Hmove, Hf, Hfile, dirname_processed, Hd, Hd1.
    destruct (decide (out ++ [PROCESSED_DIR self] ∈ dirs s)) as [_|Hn];
      [|done].
    eexists. split; [done|]. split; [reflexivity|]. simpl.
    split; [congruence|]. split.
    + right. apply lookup_insert_eq.
    + intros p Hp1 Hp2. rewrite lookup_insert_ne by done.
      rewrite lookup_delete_ne by done. by apply Hother.
  - eexists. split; [done|]. split; [reflexivity|]. simpl.
    split; [congruence|]. split.
    + left. by rewrite Hf.
    + intros p Hp1 Hp2. rewrite Hf. by apply Hother.
Qed.

Lemma chunk_on_disk_other (out : path) (processed : string) (headers : Row)
    (filename : string) (s s' : State) (index : Z) (c : Z * list Row) :
  c.1 ≠ index →
  (∀ p, p ≠ out ++ [chunk_name filename index] →
        p ≠ out ++ [processed; chunk_name filename index] →
        files s' !! p = files s !! p) →
  chunk_on_disk out processed headers filename s c →
  chunk_on_disk out processed headers filename s' c.
Proof.
  intros Hne Hother Hc. unfold chunk_on_disk in *.
  assert (Hname : chunk_name filename c.1 ≠ chunk_name filename index)
    by (intros H; by apply (inj (chunk_name _)) in H).
  rewrite !Hother; [done|..].
  - intros H. by apply app_inv_head in H.
  - intros H. apply app_inv_head in H. by injection H.
  - intros H. apply app_inv_head in H. by injection H.
  - intros H. by apply app_inv_head in H.
Qed.

Lemma for_rows_places (E : Env) (self : CsvUploader) (headers : Row)
    (filename : string) (out : path) (rows : list Row) (b : Buffer)
    (sealed : list (Z * list Row)) (s : State) :
  out ∈ dirs s →
  out ++ [PROCESSED_DIR self] ∈ dirs s →
  (∀ k, move_fails E k = false) →
  Forall (λ c, c.1 ≤ chunk_index b) sealed →
  Forall (chunk_on_disk out (PROCESSED_DIR self) headers filename s) sealed →
  ∃ s',
    for_rows E self headers filename out rows b s
      = (Ok (buffer_after (MAX_CHUNK_SIZE self) rows b), s')
    ∧ dirs s' = dirs s
    ∧ Forall (λ c, c.1 ≤ chunk_index
                           (buffer_after (MAX_CHUNK_SIZE self) rows b))
        (sealed ++ sealed_in_loop (MAX_CHUNK_SIZE self) rows b)
    ∧ Forall (chunk_on_disk out (PROCESSED_DIR self) headers filename s')
        (sealed ++ sealed_in_loop (MAX_CHUNK_SIZE self) rows b).
Proof.
  intros Hout Hproc Hmove. revert b sealed s Hout Hproc.
  induction rows as [|row rest IH]; intros b sealed s Hout Hproc Hidx Hdisk;
    simpl.
  - exists s. by rewrite app_nil_r.
  - unfold mbind, M_bind, bind. unfold for_row at 1.
    unfold sealed_by, next_buffer.
    destruct (current_chunk_size b + row_size row >? MAX_CHUNK_SIZE self).
    + destruct (seal_places E self (chunk b ++ [row]) (chunk_index b + 1)
                  headers filename out s Hout Hproc Hmove)
        as (s1 & s2 & Hw & Hu & Hd & Hnew & Hother).
      unfold mbind, M_bind, bind. rewrite Hw, Hu. simpl.
      destruct (IH {| chunk := [row]; current_chunk_size := row_size row;
                      chunk_index := chunk_index b + 1 |}
                  (sealed ++ [(chunk_index b + 1, chunk b ++ [row])]) s2)
        as (s' & Hrest & Hd' & Hidx' & Hdisk'); [by rewrite Hd..| | |].
      * apply Forall_app. split; [|by apply Forall_singleton].
        eapply Forall_impl; [exact Hidx|]. intros c Hc. simpl in *. lia.
      * apply Forall_app. split; [|by apply Forall_singleton].
        rewrite Forall_forall in Hidx, Hdisk. apply Forall_forall.
        intros c Hc.
        eapply chunk_on_disk_other; [|exact Hother|by apply Hdisk].
        specialize (Hidx c Hc). simpl in Hidx. lia.
      * exists s'. rewrite Z.add_0_l. rewrite Hrest.
        rewrite <- !app_assoc in Hidx', Hdisk'.
        split; [done|]. split; [congruence|]. by split.
    + unfold_monad. simpl.
      destruct (IH {| chunk := (chunk b ++ [row]) ++ [row];
                      current_chunk_size := current_chunk_size b + row_size row;
                      chunk_index := chunk_index b |} sealed s)
        as (s' & Hrest & Hd' & Hidx' & Hdisk'); [done..|].
      exists s'. by rewrite Hrest.
Qed.

(** On a run whose source holds the rows to skip, the header row and the
    data rows, and whose moves are not refused, every chunk is on disk when
    the run is over, whatever the server answered: its file, with the
    header row and the rows of the chunk, is in the run directory or in
    the sub-directory [PROCESSED_DIR]. *)
Theorem run_keeps_chunks_on_disk (E : Env) (self : CsvUploader)
    (csv : CsvPath) (pre : list Row) (headers : Row) (rows : list Row)
    (s : State) :
  CSV_PATH self = Some csv →
  files s !! csv_path_key csv = Some (pre ++ headers :: rows) →
  length pre = Z.to_nat (HEADER self - 1) →
  (∀ k, move_fails E k = false) →
  Forall (chunk_on_disk (run_directory E csv) (PROCESSED_DIR self) headers
            (csv_stem csv) (process_and_upload_chunks E self s).2)
    (chunks_of (MAX_CHUNK_SIZE self) rows).
Proof.
  intros Hcsv Hfile Hpre Hmove.
  rewrite (process_and_upload_chunks_prepared E self csv s Hcsv), Hfile.
  unfold mbind at 1, M_bind at 1, bind at 1.
  rewrite <- Hpre, skip_rows_app.
  set (out := run_directory E csv).
  set (s0 := makedirs (out ++ [PROCESSED_DIR self]) s).
  assert (Hout : out ∈ dirs s0) by apply makedirs_parent.
  assert (Hproc : out ++ [PROCESSED_DIR self] ∈ dirs s0)
    by apply makedirs_self.
  clearbody s0.
  destruct (for_rows_places E self headers (csv_stem csv) out rows
              empty_buffer [] s0 Hout Hproc Hmove)
    as (s1 & Hloop & Hd1 & Hidx & Hdisk); [done..|].
  unfold mbind at 1, M_bind at 1, bind at 1. rewrite Hloop.
  simpl in Hidx, Hdisk. unfold chunks_of, sealed_at_end.
  destruct (chunk (buffer_after (MAX_CHUNK_SIZE self) rows empty_buffer))
    as [|r c] eqn:Hchunk.
  - by rewrite app_nil_r.
  - destruct (seal_places E self (r :: c)
                (chunk_index
                   (buffer_after (MAX_CHUNK_SIZE self) rows empty_buffer) + 1)
                headers (csv_stem csv) out s1)
      as (s2 & s' & Hw & Hu & Hd & Hnew & Hother); [by rewrite Hd1..|done|].
    unfold mbind, M_bind, bind. rewrite Hw, Hu. simpl.
    apply Forall_app. split; [|by apply Forall_singleton].
    rewrite Forall_forall in Hidx, Hdisk. apply Forall_forall. intros c' Hc'.
    eapply chunk_on_disk_other; [|exact Hother|by apply Hdisk].
    specialize (Hidx c' Hc'). simpl in Hidx. lia.
Qed.

Lemma run_keeps_chunks_on_disk_witness :
  Forall (chunk_on_disk ["data"; "assets_20240101_000000"] "uploaded"
            ["id"; "name"] "assets"
            (process_and_upload_chunks failing_env demo_uploader
               demo_state).2)
    (chunks_of (MAX_CHUNK_SIZE demo_uploader) [["1"; "ab"]]).
Proof.
  apply (run_keeps_chunks_on_disk failing_env demo_uploader
           {| csv_directory := ["data"]; csv_stem := "assets";
              csv_ext := ".csv" |} [] ["id"; "name"] [["1"; "ab"]]
           demo_state).
  - reflexivity.
  - vm_compute. reflexivity.
  - reflexivity.
  - reflexivity.
Defined.

(** ** The token of every upload *)

Lemma bearer_consistent_no_upload (jwt : string) (tr : list Event) :
  Forall (λ e, match e with EvUpload _ _ _ _ _ => False | _ => True end) tr →
  bearer_consistent jwt tr.
Proof.
  intros Hall. revert jwt.
  induction Hall as [|e tr He Hall IH]; intros jwt; simpl; [done|].
  split; [by destruct e|apply IH].
Qed.

Lemma init_eq (E : Env) (args : Args) (s : State) :
  __init__ E args s
  = match _fill_username_password E (uploader_of_args args) s with
    | (Ok self, s1) =>
        (t ← _generate_jwt E self; modify (set_generated_jwt t);; ret self) s1
    | (Raise e, s1) => (Raise e, s1)
    end.
Proof. reflexivity. Qed.

Lemma fill_username_password_history (E : Env) (self : CsvUploader)
    (s : State) :
  ∃ tr,
    trace (_fill_username_password E self s).2 = trace s ++ tr
    ∧ Forall (λ e, match e with EvLog _ => True | _ => False end) tr.
Proof.
  unfold _fill_username_password.
  destruct (envQualysUsernameProperty self) as [uvar|];
    [destruct (envQualysPasswordProperty self) as [pvar|]|];
    try (exists []; simpl; by rewrite app_nil_r).
  unfold_monad. simpl.
  destruct (environ E !! uvar) as [u|];
    [destruct (environ E !! pvar) as [p|]|];
    (exists [EvLog LogReadingEnv]; split; [done|by repeat constructor]).
Qed.

Lemma generate_and_store_history (E : Env) (self k : CsvUploader)
    (s : State) :
  ∃ tr,
    trace ((t ← _generate_jwt E self; modify (set_generated_jwt t);;
            ret k) s).2 = trace s ++ tr
    ∧ Forall (λ e, match e with EvUpload _ _ _ _ _ => False | _ => True end)
        tr
    ∧ (∀ self',
         ((t ← _generate_jwt E self; modify (set_generated_jwt t);;
           ret k) s).1 = Ok self' →
         ∀ jwt,
           current_jwt jwt tr
           = generated_jwt
               ((t ← _generate_jwt E self; modify (set_generated_jwt t);;
                 ret k) s).2).
Proof.
  unfold mbind, M_bind, bind, modify, ret.
  rewrite generate_jwt_eq. unfold asked.
  destruct (auth_oracle E (n_auth s)) as [|code text] eqn:Hauth;
    [|destruct (raise_for_status code) eqn:Hst];
    (eexists [_; _]; simpl; rewrite <- !app_assoc;
     split; [done|]; split; [by repeat constructor|]);
    try (by intros ? [=]).
  intros _ _ jwt. unfold current_jwt. simpl. by rewrite Hst.
Qed.

Lemma init_history (E : Env) (args : Args) (s : State) :
  ∃ tr,
    trace (__init__ E args s).2 = trace s ++ tr
    ∧ Forall (λ e, match e with EvUpload _ _ _ _ _ => False | _ => True end)
        tr
    ∧ (∀ self, (__init__ E args s).1 = Ok self →
       ∀ jwt, current_jwt jwt tr = generated_jwt (__init__ E args s).2).
Proof.
  rewrite init_eq.
  destruct (fill_username_password_history E (uploader_of_args args) s)
    as (tr0 & Htr0 & Hlog).
  destruct (_fill_username_password E (uploader_of_args args) s)
    as [[self0|e] s1]; simpl in Htr0.
  - destruct (generate_and_store_history E self0 self0 s1)
      as (tr & Htr & Hall & Hjwt).
    exists (tr0 ++ tr). split; [by rewrite Htr, Htr0, app_assoc|]. split.
    + apply Forall_app. split; [|done].
      eapply Forall_impl; [exact Hlog|]. by intros [].
    + intros self Hok jwt. rewrite current_jwt_app. by apply (Hjwt self).
  - exists tr0. split; [done|]. split; [|by intros ? [=]].
    eapply Forall_impl; [exact Hlog|]. by intros [].
Qed.

(** Over [start], whatever its outcome and whatever was stored as token
    before, every upload request carries a token that the auth endpoint
    issued in this run: the one of the construction, or the one of the
    latest authentication after a 401. *)
Theorem start_uploads_with_issued_token (E : Env) (args : Args) (s : State)
    (jwt : string) :
  ∃ tr, trace (start E args s).2 = trace s ++ tr ∧ bearer_consistent jwt tr.
Proof.
  destruct (init_history E args s) as (tr0 & Htr0 & Hall & Hjwt).
  unfold start, mbind, M_bind, bind.
  destruct (__init__ E args s) as [[self|e] s1]; simpl in *.
  - destruct (process_and_upload_chunks_token_tracked E self s1)
      as (tr1 & Htr1 & Hcons & _).
    exists (tr0 ++ tr1). split; [by rewrite Htr1, Htr0, app_assoc|].
    apply bearer_consistent_app.
    split; [by apply bearer_consistent_no_upload|].
    by rewrite (Hjwt self eq_refl jwt).
  - exists tr0. split; [done|]. by apply bearer_consistent_no_upload.
Qed.
